(** * Retrieval core of tds-virtual-ta: chunking, embedding, vector index

    A shallow embedding of
      - [scr/create_vector_db_openai.py] and [scr/create_vector_db_manual.py]
        ([chunk_by_tokens], [embed_text], [safe_embed]),
      - [app/models/llm.py] ([LLM.embed]),
      - [app/models/faiss_index.py] (class [FAISSIndex]),
    followed by the properties of these functions.

    Conventions.  Python integers are [Z].  A Python [str] is a [string];
    its characters are Rocq's [ascii] characters.  A [while] loop or a
    recursive call is a function with a step budget: [None] means that the
    budget ran out before the code returned.  Exceptions are values of
    [exn]; code that can raise returns a [result]. *)

From Stdlib Require Import ZArith Ascii String Floats Lia.
From stdpp Require Import base list strings gmap sorting pretty.

Open Scope Z_scope.

(** ** Python primitives *)

Module Py.

(** The exceptions the modelled code can raise or let through. *)
Inductive exn : Type :=
| AssertionError
| IndexError
| KeyError (key : string)
| ValueError
| RuntimeError
| FileNotFoundError
| JSONDecodeError
| UnicodeDecodeError
| BadRequestError (msg : string)
| APIError (msg : string).

Inductive result (A : Type) : Type :=
| Ok (a : A)
| Raise (e : exn).
Arguments Ok {A} a.
Arguments Raise {A} e.

Definition bind {A B} (r : result A) (k : A -> result B) : result B :=
  match r with
  | Ok a => k a
  | Raise e => Raise e
  end.

(** [len(l)] *)
Definition len {A} (l : list A) : Z := Z.of_nat (length l).

(** How a slice bound is clipped: a negative bound counts from the end. *)
Definition clip (n i : Z) : Z :=
  if i <? 0 then Z.max (i + n) 0 else Z.min i n.

(** [l[i:j]] *)
Definition slice {A} (l : list A) (i j : Z) : list A :=
  let lo := clip (len l) i in
  let hi := clip (len l) j in
  take (Z.to_nat (hi - lo)) (drop (Z.to_nat lo) l).

(** [l[i]]: a negative index counts from the end, anything out of range
    raises [IndexError]. *)
Definition getitem {A} (l : list A) (i : Z) : result A :=
  let j := if i <? 0 then i + len l else i in
  if (0 <=? j) && (j <? len l) then
    match l !! Z.to_nat j with
    | Some x => Ok x
    | None => Raise IndexError
    end
  else Raise IndexError.

(** [len(s)] on a string *)
Definition slen (s : string) : Z := Z.of_nat (String.length s).

(** [s[:mid]] and [s[mid:]] for [0 <= mid] *)
Definition prefix_to (s : string) (mid : Z) : string :=
  String.substring 0 (Z.to_nat mid) s.
Definition suffix_from (s : string) (mid : Z) : string :=
  String.substring (Z.to_nat mid) (String.length s - Z.to_nat mid) s.

(** [s.replace("\n", " ")] *)
Fixpoint replace_newlines (s : string) : string :=
  match s with
  | EmptyString => EmptyString
  | String c s' =>
      String (if Ascii.eqb c "010"%char then " "%char else c)
             (replace_newlines s')
  end.

(** [needle in s] *)
Definition contains (needle s : string) : bool :=
  match String.index 0 needle s with
  | Some _ => true
  | None => false
  end.

End Py.

Import Py.

(** [result] is an error monad; stdpp's [x ← r; k] sequences raising code. *)
#[global] Instance result_ret : MRet result := fun _ a => Ok a.
#[global] Instance result_bind : MBind result := fun _ _ k r => Py.bind r k.

(** ** The tokenizer

    [ENC = tiktoken.encoding_for_model(...)] is an external tokenizer; the
    chunker only uses [ENC.encode] and [ENC.decode]. *)

Record Encoding : Type := {
  encode : string -> list Z;
  decode : list Z -> string
}.

(** A stand-in tokenizer for concrete runs: one token per character. *)
Definition char_encoding : Encoding := {|
  encode s := map (fun c => Z.of_nat (Ascii.nat_of_ascii c))
                  (String.list_ascii_of_string s);
  decode toks := String.string_of_list_ascii
                   (map (fun t => Ascii.ascii_of_nat (Z.to_nat t)) toks)
|}.

(** ** [chunk_by_tokens] *)

Section Chunker.

Variable ENC : Encoding.

(** The [while start < len(tokens)] loop.  [start] and [chunks] are the
    loop's variables. *)
Fixpoint chunk_loop (fuel : nat) (tokens : list Z) (max_tokens overlap : Z)
    (start : Z) (chunks : list string) : option (list string) :=
  match fuel with
  | O => None
  | S fuel' =>
      if start <? len tokens then
        let end_ := Z.min (start + max_tokens) (len tokens) in
        let chunk_toks := slice tokens start end_ in
        let chunk := decode ENC chunk_toks in
        chunk_loop fuel' tokens max_tokens overlap
          (start + (max_tokens - overlap)) (chunks ++ [chunk])
      else Some chunks
  end.

Definition chunk_by_tokens (fuel : nat) (text : string)
    (max_tokens overlap : Z) : option (list string) :=
  let text := replace_newlines text in
  let tokens := encode ENC text in
  chunk_loop fuel tokens max_tokens overlap 0 [].

(** The same loop, keeping each [chunk_toks] instead of its decoding: the
    token windows behind the chunks. *)
Fixpoint window_loop (fuel : nat) (tokens : list Z) (max_tokens overlap : Z)
    (start : Z) (windows : list (list Z)) : option (list (list Z)) :=
  match fuel with
  | O => None
  | S fuel' =>
      if start <? len tokens then
        let end_ := Z.min (start + max_tokens) (len tokens) in
        let chunk_toks := slice tokens start end_ in
        window_loop fuel' tokens max_tokens overlap
          (start + (max_tokens - overlap)) (windows ++ [chunk_toks])
      else Some windows
  end.

Definition chunk_windows (fuel : nat) (text : string)
    (max_tokens overlap : Z) : option (list (list Z)) :=
  window_loop fuel (encode ENC (replace_newlines text))
    max_tokens overlap 0 [].

End Chunker.

(** ** Scalars

    The arrays of the program hold floating-point numbers.  The code is
    modelled over any carrier [F] with the operations it uses.
    [float_scalar] instantiates them with Rocq's binary64 floats for
    concrete runs; numpy computes the embeddings in float32, and the runs
    below only rely on values on which the two formats agree (small
    integers, one half, the quotient of zero by zero). *)

Class Scalar (F : Type) : Type := {
  fzero : F;
  ftwo : F;
  fadd : F -> F -> F;
  fmul : F -> F -> F;
  fdiv : F -> F -> F;
  fsqrt : F -> F;
  (** [x >= y] *)
  fgeb : F -> F -> bool;
  (** the score the faiss library reports for a missing neighbour *)
  flowest : F
}.

#[global] Instance float_scalar : Scalar float := {|
  fzero := 0%float;
  ftwo := 2%float;
  fadd := PrimFloat.add;
  fmul := PrimFloat.mul;
  fdiv := PrimFloat.div;
  fsqrt := PrimFloat.sqrt;
  fgeb x y := PrimFloat.leb y x;
  flowest := (-0x1.fffffep127)%float
|}.

(** Exact integer scores, a carrier without rounding and without NaN. *)
#[global] Instance Z_scalar : Scalar Z := {|
  fzero := 0;
  ftwo := 2;
  fadd := Z.add;
  fmul := Z.mul;
  fdiv := Z.div;
  fsqrt := Z.sqrt;
  fgeb x y := y <=? x;
  flowest := - 2 ^ 127
|}.

(** What the ordering results need from [>=]: the comparison is transitive,
    and two scores that each compare with themselves compare with each
    other.  Among floating-point numbers NaN is the one value that does not
    compare with itself, so both hold of them. *)
Class ScalarOrder (F : Type) `{Scalar F} : Prop := {
  fgeb_total : forall x y : F,
    fgeb x x = true -> fgeb y y = true ->
    fgeb x y = true \/ fgeb y x = true;
  fgeb_trans : forall x y z : F,
    fgeb x y = true -> fgeb y z = true -> fgeb x z = true
}.

(** ** numpy on one-dimensional arrays *)

Section Numpy.

Context {F : Type} `{Scalar F}.

(** [np.linalg.norm(v)] *)
Definition norm (v : list F) : F :=
  fsqrt (foldl fadd fzero (map (fun x => fmul x x) v)).

(** [v / s] for a scalar [s] *)
Definition np_div (v : list F) (s : F) : list F :=
  map (fun x => fdiv x s) v.

(** [a + b], with numpy's broadcasting of a one-element array. *)
Definition np_add (a b : list F) : result (list F) :=
  if (length a =? length b)%nat then Ok (zip_with fadd a b)
  else match a, b with
       | [x], _ => Ok (map (fun y => fadd x y) b)
       | _, [y] => Ok (map (fun x => fadd x y) a)
       | _, _ => Raise ValueError
       end.

(** The inner product the index computes. *)
Definition dot (a b : list F) : F :=
  foldl fadd fzero (zip_with fmul a b).

End Numpy.

(** ** [embed_text], [safe_embed], [LLM.embed] *)

Section Embedding.

Context {F : Type} `{Scalar F}.

(** The external embedding call: [client.embeddings.create(...)] followed
    by [resp.data[0].embedding] in the OpenAI script and in [LLM.embed],
    [embedding_model.encode(text)] in the manual script.  It returns the
    raw embedding or raises. *)
Variable embeddings_create : string -> result (list F).

(** [create_vector_db_openai.embed_text] *)
Definition embed_text (text : string) : result (list F) :=
  let text := replace_newlines text in
  embedding ← embeddings_create text;
  let normalized_embedding := np_div embedding (norm embedding) in
  Ok normalized_embedding.

(** [LLM.embed] *)
Definition llm_embed (text : string) : result (list F) :=
  q_emb ← embeddings_create text;
  Ok (np_div q_emb (norm q_emb)).

(** [create_vector_db_openai.safe_embed].  [fuel] bounds the depth of the
    recursion. *)
Fixpoint safe_embed (fuel : nat) (text : string)
    : option (result (list F)) :=
  match fuel with
  | O => None
  | S fuel' =>
      match embed_text text with
      | Ok v => Some (Ok v)
      | Raise (BadRequestError msg) =>
          if contains "maximum context length" msg then
            let mid := slen text / 2 in
            match safe_embed fuel' (prefix_to text mid) with
            | None => None
            | Some (Raise e) => Some (Raise e)
            | Some (Ok left_) =>
                match safe_embed fuel' (suffix_from text mid) with
                | None => None
                | Some (Raise e) => Some (Raise e)
                | Some (Ok right_) =>
                    Some (s ← np_add left_ right_; Ok (np_div s ftwo))
                end
            end
          else Some (Raise (BadRequestError msg))
      | Raise e => Some (Raise e)
      end
  end.

(** [create_vector_db_manual.embed_text]: every exception is caught and
    turned into the return value [None]. *)
Definition embed_text_manual (text : string) : result (option (list F)) :=
  match embed_text text with
  | Ok v => Ok (Some v)
  | Raise _ => Ok None
  end.

(** Python's truth value of a list-or-[None]. *)
Definition truthy (v : option (list F)) : bool :=
  match v with
  | Some (_ :: _) => true
  | _ => false
  end.

Definition as_array (v : option (list F)) : list F :=
  match v with
  | Some l => l
  | None => []
  end.

(** [create_vector_db_manual.safe_embed] *)
Fixpoint safe_embed_manual (fuel : nat) (text : string)
    : option (result (option (list F))) :=
  match fuel with
  | O => None
  | S fuel' =>
      match embed_text_manual text with
      | Ok r => Some (Ok r)
      | Raise _ =>
          if 5000 <? slen text then
            let mid := slen text / 2 in
            match safe_embed_manual fuel' (prefix_to text mid) with
            | None => None
            | Some (Raise e) => Some (Raise e)
            | Some (Ok left_) =>
                match safe_embed_manual fuel' (suffix_from text mid) with
                | None => None
                | Some (Raise e) => Some (Raise e)
                | Some (Ok right_) =>
                    if truthy left_ && truthy right_ then
                      Some (s ← np_add (as_array left_) (as_array right_);
                            Ok (Some (np_div s ftwo)))
                    else Some (Ok None)
                end
            end
          else Some (Ok None)
      end
  end.

End Embedding.

(** Stand-ins for the external call in concrete runs.  [zero_client] answers
    every text with the zero vector of dimension 2. *)
Definition zero_client (text : string) : result (list float) :=
  Ok [0%float; 0%float].

(** [short_client] refuses every text longer than one character, as the
    provider does for a text above its context length, and answers a single
    character with a unit vector. *)
Definition short_client (text : string) : result (list float) :=
  if 1 <? slen text then
    Raise (BadRequestError
             "This model's maximum context length is 8192 tokens")
  else if String.eqb text "a" then Ok [1%float; 0%float]
  else Ok [0%float; 1%float].

(** ** Metadata records

    A metadata record is a Python [dict] with string keys.  The values the
    ingestion scripts store are strings and integers. *)

Inductive value : Type :=
| VStr (s : string)
| VInt (n : Z).

#[global] Instance value_eq_dec : EqDecision value.
Proof. solve_decision. Defined.

#[global] Instance value_countable : Countable value.
Proof.
  refine (inj_countable'
            (fun v => match v with VStr s => inl s | VInt n => inr n end)
            (fun x => match x with inl s => VStr s | inr n => VInt n end) _).
  intros []; reflexivity.
Defined.

Abbreviation Dict := (gmap string value).

(** [m[key]] *)
Definition dict_get (m : Dict) (key : string) : result value :=
  match m !! key with
  | Some v => Ok v
  | None => Raise (KeyError key)
  end.

(** ** The faiss library

    [faiss.IndexFlatIP] is an external library class: an exact
    inner-product index.  The model keeps what the program relies on: the
    dimension [d], the stored rows in insertion order, [add], [write_index]
    and [read_index].  Its [search] is a parameter of [FAISSIndex.search];
    [exact_search] gives implementations of it. *)

Section Faiss.

Context {F : Type} `{Scalar F}.

(** A two-dimensional array of shape [(len nd_rows, nd_cols)]. *)
Record ndarray : Type := {
  nd_cols : Z;
  nd_rows : list (list F)
}.

Record IndexFlatIP : Type := {
  d : Z;
  xb : list (list F)
}.

Definition ntotal (ix : IndexFlatIP) : Z := len (xb ix).

(** [index.add(x)]: the wrapper asserts that the second dimension of [x]
    is [d], then appends the rows. *)
Definition faiss_add (ix : IndexFlatIP) (x : ndarray) : result IndexFlatIP :=
  if nd_cols x =? d ix then
    Ok {| d := d ix; xb := xb ix ++ nd_rows x |}
  else Raise AssertionError.

(** All stored vectors with their inner product against the query. *)
Definition scored (ix : IndexFlatIP) (q : list F) : list (Z * F) :=
  imap (fun i x => (Z.of_nat i, dot q x)) (xb ix).

(** A ranking of two [(position, score)] pairs: the higher score comes
    first, and [tie] decides between the positions of equal scores. *)
Definition ranks_before (tie : Z -> Z -> bool) (a b : Z * F) : bool :=
  if fgeb (snd b) (snd a) then fgeb (snd a) (snd b) && tie (fst a) (fst b)
  else true.

Definition ranked (tie : Z -> Z -> bool) (a b : Z * F) : Prop :=
  ranks_before tie a b = true.

#[global] Instance ranked_dec tie : RelDecision (ranked tie).
Proof. intros a b. unfold ranked. apply _. Defined.

(** An exact search for a single query row, returning [(distances[0],
    indices[0])]: the wrapper asserts the dimension of the query and
    [k > 0]; both rows have length [k]; when fewer than [k] vectors are
    stored the missing places hold position [-1] and score [flowest].  The
    library does not document an order among equal scores, so there is one
    such search for each [tie]. *)
Definition exact_search (tie : Z -> Z -> bool) (ix : IndexFlatIP)
    (q : list F) (k : Z) : result (list F * list Z) :=
  if (len q =? d ix) && (0 <? k) then
    let top := take (Z.to_nat k) (merge_sort (ranked tie) (scored ix q)) in
    let out := top ++ replicate (Z.to_nat k - length top) (-1, flowest) in
    Ok (map snd out, map fst out)
  else Raise AssertionError.

(** ** Files

    A file holds a serialized index, the JSON text of a list of flat
    records, or content that is neither an index nor JSON; of the last kind
    the model keeps whether the bytes decode as text.  JSON text of any
    other value, which [json.load] would return as it is, is not
    represented. *)

Inductive file : Type :=
| FaissFile (ix : IndexFlatIP)
| JsonFile (records : list Dict)
| OtherFile (text : bool).

(** Whether the bytes [faiss.write_index] writes for an index decode as
    text.  This depends on the dimension and on the bit patterns of the
    stored numbers, so the persistence code is modelled over any such
    function. *)
Variable index_is_text : IndexFlatIP -> bool.

(** [os.path.exists(path)] *)
Definition path_exists (fs : gmap string file) (path : string) : bool :=
  bool_decide (is_Some (fs !! path)).

(** [faiss.read_index(path)] *)
Definition read_index (fs : gmap string file) (path : string)
    : result IndexFlatIP :=
  match fs !! path with
  | Some (FaissFile ix) => Ok ix
  | Some _ => Raise RuntimeError
  | None => Raise RuntimeError
  end.

(** What [json.load] raises on content that is no JSON: bytes that do not
    decode raise [UnicodeDecodeError] while the file is read, text that is
    not JSON raises [JSONDecodeError]. *)
Definition not_json (text : bool) : exn :=
  if text then JSONDecodeError else UnicodeDecodeError.

(** [with open(path) as f: json.load(f)] *)
Definition json_load (fs : gmap string file) (path : string)
    : result (list Dict) :=
  match fs !! path with
  | Some (JsonFile records) => Ok records
  | Some (FaissFile ix) => Raise (not_json (index_is_text ix))
  | Some (OtherFile text) => Raise (not_json text)
  | None => Raise FileNotFoundError
  end.

(** [faiss.write_index(ix, path)] *)
Definition write_index (ix : IndexFlatIP) (path : string)
    (fs : gmap string file) : gmap string file :=
  <[path := FaissFile ix]> fs.

(** [with open(path, "w") as f: json.dump(records, f)] *)
Definition json_dump (records : list Dict) (path : string)
    (fs : gmap string file) : gmap string file :=
  <[path := JsonFile records]> fs.

(** ** class [FAISSIndex] *)

Record FAISSIndex : Type := {
  embed_dim : Z;
  index_path : string;
  meta_path : string;
  index : IndexFlatIP;
  metadata : list Dict;
  similarity_threshold : F
}.

Definition set_index (self : FAISSIndex) (ix : IndexFlatIP) : FAISSIndex :=
  {| embed_dim := embed_dim self; index_path := index_path self;
     meta_path := meta_path self; index := ix;
     metadata := metadata self;
     similarity_threshold := similarity_threshold self |}.

Definition set_metadata (self : FAISSIndex) (md : list Dict) : FAISSIndex :=
  {| embed_dim := embed_dim self; index_path := index_path self;
     meta_path := meta_path self; index := index self;
     metadata := md;
     similarity_threshold := similarity_threshold self |}.

(** A method that mutates [self] returns its outcome together with the
    object as the call leaves it, also when it raises. *)
Definition load_index (fs : gmap string file) (self : FAISSIndex)
    : result unit * FAISSIndex :=
  if path_exists fs (index_path self) && path_exists fs (meta_path self)
  then
    match read_index fs (index_path self) with
    | Raise e => (Raise e, self)
    | Ok ix =>
        let self := set_index self ix in
        match json_load fs (meta_path self) with
        | Raise e => (Raise e, self)
        | Ok md => (Ok (), set_metadata self md)
        end
    end
  else (Ok (), self).

(** [FAISSIndex(embed_dim, index_path, meta_path, similarity_threshold)] *)
Definition init (embed_dim_ : Z) (index_path_ meta_path_ : string)
    (similarity_threshold_ : F) (fs : gmap string file)
    : result FAISSIndex :=
  let self := {| embed_dim := embed_dim_; index_path := index_path_;
                 meta_path := meta_path_;
                 index := {| d := embed_dim_; xb := [] |};
                 metadata := [];
                 similarity_threshold := similarity_threshold_ |} in
  match load_index fs self with
  | (Ok _, self) => Ok self
  | (Raise e, _) => Raise e
  end.

Definition add_embeddings (embeddings : ndarray) (metadata_ : list Dict)
    (self : FAISSIndex) : result unit * FAISSIndex :=
  match faiss_add (index self) embeddings with
  | Raise e => (Raise e, self)
  | Ok ix =>
      let self := set_index self ix in
      (Ok (), set_metadata self (metadata self ++ metadata_))
  end.

(** [self.index.search(xq, k)], the library call inside
    [FAISSIndex.search].  The class is modelled over any such function;
    [search_contract] below states what the library's interface promises of
    it. *)
Variable index_search : IndexFlatIP -> list F -> Z -> result (list F * list Z).

(** The [for idx, score in zip(indices[0], distances[0])] loop of
    [search]. *)
Fixpoint search_loop (threshold : F) (pairs : list (Z * F))
    (results : list (Z * F)) : list (Z * F) :=
  match pairs with
  | [] => results
  | (idx, score) :: pairs' =>
      if fgeb score threshold then
        search_loop threshold pairs' (results ++ [(idx, score)])
      else search_loop threshold pairs' results
  end.

Definition search (self : FAISSIndex) (query_embedding : list F) (k : Z)
    : result (list (Z * F)) :=
  '(distances, indices) ← index_search (index self) query_embedding k;
  Ok (search_loop (similarity_threshold self) (zip indices distances) []).

(** The loop of [generate_excerpts]; [excerpts] and [seen_texts] are its
    variables. *)
Fixpoint excerpts_loop (records : list Dict) (relevant : list (Z * F))
    (excerpts : list (value * Dict)) (seen_texts : gset (value * value))
    : result (list (value * Dict)) :=
  match relevant with
  | [] => Ok excerpts
  | (idx, score) :: relevant' =>
      m ← getitem records idx;
      source ← dict_get m "source";
      chunk_id ← dict_get m "chunk_id";
      if decide ((source, chunk_id) ∈ seen_texts) then
        excerpts_loop records relevant' excerpts seen_texts
      else
        text ← dict_get m "text";
        excerpts_loop records relevant' (excerpts ++ [(text, m)])
          ({[ (source, chunk_id) ]} ∪ seen_texts)
  end.

Definition generate_excerpts (self : FAISSIndex)
    (relevant : list (Z * F)) : result (list (value * Dict)) :=
  excerpts_loop (metadata self) relevant [] ∅.

Definition save_index (self : FAISSIndex) (fs : gmap string file)
    : gmap string file :=
  json_dump (metadata self) (meta_path self)
    (write_index (index self) (index_path self) fs).

(** A sequence of [add_embeddings] calls, stopping at the first one that
    raises. *)
Fixpoint add_all (calls : list (ndarray * list Dict)) (self : FAISSIndex)
    : result unit * FAISSIndex :=
  match calls with
  | [] => (Ok (), self)
  | (embeddings, metadata_) :: calls' =>
      match add_embeddings embeddings metadata_ self with
      | (Ok _, self) => add_all calls' self
      | (Raise e, self) => (Raise e, self)
      end
  end.

End Faiss.

Arguments ndarray F : clear implicits.
Arguments IndexFlatIP F : clear implicits.
Arguments file F : clear implicits.
Arguments FAISSIndex F : clear implicits.

(** ** Vocabulary of the statements *)

Section Vocabulary.

Context {F : Type} `{Scalar F}.

(** A hit qualifies when its score is at or above the threshold. *)
Definition qualifies (thr : F) (h : Z * F) : Prop := fgeb (snd h) thr = true.

#[global] Instance qualifies_dec thr h : Decision (qualifies thr h).
Proof. unfold qualifies. apply _. Defined.

(** Descending score. *)
Definition score_order (a b : Z * F) : Prop := fgeb (snd a) (snd b) = true.

(** Descending score, equal scores by ascending position. *)
Definition score_then_position (a b : Z * F) : Prop :=
  fgeb (snd a) (snd b) = true
  /\ (fgeb (snd b) (snd a) = true -> fst a <= fst b).

(** A stored vector whose score compares with itself: any score but a
    NaN. *)
Definition ordered_score (h : Z * F) : Prop := fgeb (snd h) (snd h) = true.

#[global] Instance ordered_score_dec h : Decision (ordered_score h).
Proof. unfold ordered_score. apply _. Defined.

(** What the interface of the library's search promises for a query of the
    right dimension, [k >= 1] and no NaN among the scores: [k] places; the
    places found hold distinct stored positions with their inner products,
    in descending order of score; the other places hold [(-1, flowest)];
    and a stored vector is left out only when its score does not exceed
    [flowest], or when all [k] places are found and none of them scores
    less. *)
Definition search_contract
    (index_search : IndexFlatIP F -> list F -> Z -> result (list F * list Z))
    : Prop :=
  forall (ix : IndexFlatIP F) (q : list F) (k : Z),
    len q = d ix -> 1 <= k ->
    Forall ordered_score (scored ix q) ->
    exists found : list (Z * F),
      let out := found ++ replicate (Z.to_nat k - length found) (-1, flowest) in
      index_search ix q k = Ok (map snd out, map fst out)
      /\ (length found <= Z.to_nat k)%nat
      /\ NoDup found
      /\ (forall h, h ∈ found -> h ∈ scored ix q)
      /\ StronglySorted score_order found
      /\ (forall h, h ∈ scored ix q ->
            h ∈ found
            \/ fgeb flowest (snd h) = true
            \/ (length found = Z.to_nat k
                /\ forall h', h' ∈ found -> score_order h' h)).

End Vocabulary.

(** The deduplication key of a metadata record. *)
Definition record_key (m : Dict) : option value * option value :=
  (m !! "source", m !! "chunk_id").

(** A record with the three keys [generate_excerpts] reads. *)
Definition complete (m : Dict) : Prop :=
  is_Some (m !! "source") /\ is_Some (m !! "chunk_id")
  /\ is_Some (m !! "text").

(** An excerpt carries the text of its record and the record itself. *)
Definition excerpt_of (e : value * Dict) (m : Dict) : Prop :=
  snd e = m /\ m !! "text" = Some (fst e).

Section FirstOccurrences.

Context {A K : Type} `{EqDecision K} (key : A -> K).

(** Deduplication in the words of the specification: the element at rank
    [i] is kept when no element before it (nor any of [earlier]) has its
    key; the kept elements stay in their order. *)
Definition first_occurrences_after (earlier l : list A) : list A :=
  mjoin (imap (fun i x =>
                 if decide (key x ∈ key <$> (earlier ++ take i l))
                 then [] else [x]) l).

Definition first_occurrences (l : list A) : list A :=
  first_occurrences_after [] l.

End FirstOccurrences.

(** Small concrete objects for the runs below. *)
Definition record_a : Dict :=
  {[ "source" := VStr "doc1"; "chunk_id" := VInt 3; "text" := VStr "alpha" ]}.
Definition record_b : Dict :=
  {[ "source" := VStr "doc2"; "chunk_id" := VInt 0; "text" := VStr "beta" ]}.
Definition record_a' : Dict :=
  {[ "source" := VStr "doc1"; "chunk_id" := VInt 3; "text" := VStr "again" ]}.

Definition two_rows : ndarray float :=
  {| nd_cols := 2; nd_rows := [[1%float; 0%float]; [0%float; 1%float]] |}.

Definition empty_index : FAISSIndex float :=
  {| embed_dim := 2; index_path := "ix.faiss"; meta_path := "meta.json";
     index := {| d := 2; xb := [] |}; metadata := [];
     similarity_threshold := 0.5%float |}.

(** In the runs below the bytes of a serialized index are not text. *)
Definition binary_index (ix : IndexFlatIP float) : bool := false.

(** Two files that disagree: two stored vectors, one metadata record. *)
Definition mismatched_files : gmap string (file float) :=
  {[ "ix.faiss" := FaissFile {| d := 2; xb := nd_rows two_rows |};
     "meta.json" := JsonFile [record_a] ]}.

Definition loaded_index : FAISSIndex float :=
  {| embed_dim := 2; index_path := "ix.faiss"; meta_path := "meta.json";
     index := {| d := 2; xb := nd_rows two_rows |};
     metadata := [record_a; record_b];
     similarity_threshold := 0.5%float |}.

(** An index over exact integer scores: three vectors of dimension 2 and
    threshold 1. *)
Definition int_index : @FAISSIndex Z :=
  {| embed_dim := 2; index_path := "ix.faiss"; meta_path := "meta.json";
     index := {| d := 2; xb := [[1; 0]; [0; 1]; [1; 1]] |};
     metadata := [record_a; record_b; record_a'];
     similarity_threshold := 1 |}.

(** Two equal vectors: any query scores them equally. *)
Definition tied_index : @FAISSIndex Z :=
  {| embed_dim := 2; index_path := "ix.faiss"; meta_path := "meta.json";
     index := {| d := 2; xb := [[1; 0]; [1; 0]] |};
     metadata := [record_a; record_b];
     similarity_threshold := 1 |}.

(** ** [chunk_text]

    The word-based chunker of both ingestion scripts. *)

(** Python's whitespace among the characters below 256: tab to carriage
    return, the four separators 28 to 31, the space, and the characters 133
    and 160. *)
Definition is_space (c : ascii) : bool :=
  let n := nat_of_ascii c in
  ((9 <=? n)%nat && (n <=? 13)%nat) || ((28 <=? n)%nat && (n <=? 32)%nat)
  || (n =? 133)%nat || (n =? 160)%nat.

(** [text.split()]: the maximal runs of characters that are not whitespace.
    [word] holds the run being read, last character first. *)
Fixpoint split_from (word : list ascii) (s : string) : list string :=
  match s with
  | EmptyString =>
      match word with
      | [] => []
      | _ => [string_of_list_ascii (rev word)]
      end
  | String c s' =>
      if is_space c then
        match word with
        | [] => split_from [] s'
        | _ => string_of_list_ascii (rev word) :: split_from [] s'
        end
      else split_from (c :: word) s'
  end.

Definition split (text : string) : list string := split_from [] text.

(** [" ".join(words)] *)
Fixpoint join_space (words : list string) : string :=
  match words with
  | [] => EmptyString
  | [w] => w
  | w :: ws => w +:+ " " +:+ join_space ws
  end.

(** The [while start < len(words)] loop of [chunk_text]. *)
Fixpoint chunk_text_loop (fuel : nat) (words : list string) (size overlap : Z)
    (start : Z) (chunks : list string) : option (list string) :=
  match fuel with
  | O => None
  | S fuel' =>
      if start <? len words then
        let end_ := Z.min (start + size) (len words) in
        let chunk := join_space (slice words start end_) in
        chunk_text_loop fuel' words size overlap
          (start + (size - overlap)) (chunks ++ [chunk])
      else Some chunks
  end.

Definition chunk_text (fuel : nat) (text : string) (size overlap : Z)
    : option (list string) :=
  let words := split text in
  chunk_text_loop fuel words size overlap 0 [].

(** The windows both chunker loops cut, on any kind of element: the loop
    with the slices themselves as chunks. *)
Fixpoint slide {A} (fuel : nat) (xs : list A) (size overlap : Z)
    (start : Z) (windows : list (list A)) : option (list (list A)) :=
  match fuel with
  | O => None
  | S fuel' =>
      if start <? len xs then
        let end_ := Z.min (start + size) (len xs) in
        slide fuel' xs size overlap (start + (size - overlap))
          (windows ++ [slice xs start end_])
      else Some windows
  end.

(** A run of characters without whitespace. *)
Definition no_space (w : list ascii) : Prop :=
  Forall (fun c => is_space c = false) w.

(** ** [index_batch]

    The ingestion scripts keep their index and their metadata in two
    module-level variables, [index] and [metadata]. *)

Section Ingestion.

Context {F : Type} `{Scalar F}.

Variable embeddings_create : string -> result (list F).

Record store : Type := {
  g_index : IndexFlatIP F;
  g_metadata : list Dict
}.

(** [[embed_text(t) for t in texts]]: the first exception ends the
    comprehension. *)
Fixpoint embed_each (texts : list string) : result (list (list F)) :=
  match texts with
  | [] => Ok []
  | t :: texts' =>
      v ← embed_text embeddings_create t;
      vs ← embed_each texts';
      Ok (v :: vs)
  end.

(** [arr = np.array(rows, dtype=np.float32)] followed by [index.add(arr)].
    Rows of unequal lengths make numpy raise [ValueError]; no row at all
    gives an array of shape [(0,)], on which the unpacking [n, d = x.shape]
    of the library raises [ValueError]. *)
Definition add_rows (ix : IndexFlatIP F) (rows : list (list F))
    : result (IndexFlatIP F) :=
  match rows with
  | [] => Raise ValueError
  | r :: _ =>
      if forallb (fun r' => (length r' =? length r)%nat) rows then
        faiss_add ix {| nd_cols := len r; nd_rows := rows |}
      else Raise ValueError
  end.

(** [{"text": t, **m}]: the keys of [m] win. *)
Definition with_text (t : string) (m : Dict) : Dict :=
  m ∪ {[ "text" := VStr t ]}.

(** [create_vector_db_openai.index_batch] *)
Definition index_batch (texts : list string) (metas : list Dict)
    (st : store) : result unit * store :=
  match embed_each texts with
  | Raise e => (Raise e, st)
  | Ok embs =>
      match add_rows (g_index st) embs with
      | Raise e => (Raise e, st)
      | Ok ix =>
          (Ok (), {| g_index := ix;
                     g_metadata :=
                       g_metadata st ++ zip_with with_text texts metas |})
      end
  end.

(** The [for i, text in enumerate(texts)] loop of
    [create_vector_db_manual.index_batch]; [embs], [valid_texts] and
    [valid_metas] are its variables. *)
Fixpoint embed_valid (fuel : nat) (i : Z) (texts : list string)
    (metas : list Dict) (embs : list (list F)) (valid_texts : list string)
    (valid_metas : list Dict)
    : option (result (list (list F) * list string * list Dict)) :=
  match texts with
  | [] => Some (Ok (embs, valid_texts, valid_metas))
  | text :: texts' =>
      match safe_embed_manual embeddings_create fuel text with
      | None => None
      | Some (Raise e) => Some (Raise e)
      | Some (Ok (Some embedding)) =>
          match getitem metas i with
          | Raise e => Some (Raise e)
          | Ok meta =>
              embed_valid fuel (i + 1) texts' metas (embs ++ [embedding])
                (valid_texts ++ [text]) (valid_metas ++ [meta])
          end
      | Some (Ok None) =>
          embed_valid fuel (i + 1) texts' metas embs valid_texts valid_metas
      end
  end.

(** [create_vector_db_manual.index_batch] *)
Definition index_batch_manual (fuel : nat) (texts : list string)
    (metas : list Dict) (st : store) : option (result unit * store) :=
  match embed_valid fuel 0 texts metas [] [] [] with
  | None => None
  | Some (Raise e) => Some (Raise e, st)
  | Some (Ok (embs, valid_texts, valid_metas)) =>
      match embs with
      | [] => Some (Ok (), st)
      | _ :: _ =>
          match add_rows (g_index st) embs with
          | Raise e => Some (Raise e, st)
          | Ok ix =>
              Some (Ok (),
                    {| g_index := ix;
                       g_metadata :=
                         g_metadata st
                         ++ zip_with with_text valid_texts valid_metas |})
          end
      end
  end.

(** Whether the embedding of a text succeeds. *)
Definition embeds (t : string) : bool :=
  match embed_text embeddings_create t with
  | Ok _ => true
  | Raise _ => false
  end.

End Ingestion.

Arguments store F : clear implicits.

(** ** [TemplateManager.build_prompt] *)

(** [str(v)] for a value of a metadata record *)
Definition py_str (v : value) : string :=
  match v with
  | VStr s => s
  | VInt n => pretty n
  end.

(** [str(m.get(key))] *)
Definition py_str_get (m : Dict) (key : string) : string :=
  match m !! key with
  | Some v => py_str v
  | None => "None"
  end.

Definition nl : string := String "010" EmptyString.

(** [self.template] *)
Definition template : string :=
  "Always cite sources in links only." +:+ nl +:+ nl
  +:+ "Answer based solely on the following excerpts:" +:+ nl +:+ nl.

(** The [for i, (text, meta) in enumerate(excerpts, start=1)] loop. *)
Fixpoint build_prompt_loop (i : Z) (excerpts : list (value * Dict))
    (prompt : string) : result string :=
  match excerpts with
  | [] => Ok prompt
  | (text, meta) :: excerpts' =>
      source ← dict_get meta "source";
      build_prompt_loop (i + 1) excerpts'
        (prompt +:+ "Excerpt [" +:+ pretty i +:+ "] (source: "
         +:+ py_str source +:+ " | chunk_id: "
         +:+ py_str_get meta "chunk_id" +:+ "):" +:+ nl
         +:+ py_str text +:+ nl +:+ nl)
  end.

Definition build_prompt (excerpts : list (value * Dict))
    (augmented_query : string) : result string :=
  prompt ← build_prompt_loop 1 excerpts template;
  Ok (prompt +:+ "QUESTION: " +:+ augmented_query +:+ nl +:+ "ANSWER:").

(** The block of the prompt that presents one excerpt under the number
    [i]: a heading with the source and the chunk id of its record, then the
    text and an empty line. *)
Definition excerpt_block (i : Z) (e : value * Dict) : string :=
  "Excerpt [" +:+ pretty i +:+ "] (source: "
  +:+ py_str_get (snd e) "source" +:+ " | chunk_id: "
  +:+ py_str_get (snd e) "chunk_id" +:+ "):" +:+ nl
  +:+ py_str (fst e) +:+ nl +:+ nl.

(** The blocks of all excerpts, one after the other, numbered from
    [first] in the order of the excerpts. *)
Definition excerpt_blocks (first : Z) (excerpts : list (value * Dict))
    : string :=
  foldr String.append EmptyString
    (imap (fun i e => excerpt_block (first + Z.of_nat i) e) excerpts).

(** ** The route [chat] *)

Record ChatRequest : Type := {
  question : string;
  image : option string
}.

(** How a call of the route ends: a [ChatResponse], an [HTTPException]
    raised by the route, or an exception the route does not catch. *)
Inductive chat_outcome : Type :=
| ChatResponse (answer : string) (links : list (string * string))
| HTTPException (status_code : Z) (detail : string)
| Uncaught (e : exn).

Definition no_context : chat_outcome :=
  ChatResponse
    "I'm sorry, I don't have enough context to answer that question." [].

Section Chat.

Context {F : Type} `{Scalar F}.

(** [ocr.extract_text] *)
Variable extract_text : string -> result string.
(** the embeddings endpoint behind [llm.embed] *)
Variable embeddings_create : string -> result (list F).
(** the library search behind [faiss.search] *)
Variable index_search : IndexFlatIP F -> list F -> Z -> result (list F * list Z).
(** the module-level [faiss] *)
Variable faiss : FAISSIndex F.
(** [str(e)] of an exception *)
Variable exn_str : exn -> string.
(** Lines 54 to 74 of the route: the exchange with the language model on
    the finished prompt. *)
Variable answer : string -> chat_outcome.

(** [if request.image]: a string that is neither [None] nor empty. *)
Definition image_given (request : ChatRequest) : option string :=
  match image request with
  | Some (String c s) => Some (String c s)
  | _ => None
  end.

(** Lines 41 to 74, with [extra_relevant] and [augmented_query] set. *)
Definition chat_query (extra_relevant : option (list (Z * F)))
    (augmented_query : string) : chat_outcome :=
  match augmented_query with
  | EmptyString => HTTPException 400 "Query cannot be empty."
  | _ =>
      match llm_embed embeddings_create augmented_query with
      | Raise e => Uncaught e
      | Ok query_embedding =>
          match search index_search faiss query_embedding 15 with
          | Raise e => Uncaught e
          | Ok relevant =>
              let relevant :=
                match extra_relevant with
                | Some (h :: hs) => relevant ++ h :: hs
                | _ => relevant
                end in
              match relevant with
              | [] => no_context
              | _ :: _ =>
                  match generate_excerpts faiss relevant with
                  | Raise e => Uncaught e
                  | Ok excerpts =>
                      match build_prompt excerpts augmented_query with
                      | Raise e => Uncaught e
                      | Ok prompt => answer prompt
                      end
                  end
              end
          end
      end
  end.

Definition chat (request : ChatRequest) : chat_outcome :=
  match image_given request with
  | Some image_data =>
      match
        ocr_text ← extract_text image_data;
        query_embedding ← llm_embed embeddings_create (question request);
        extra_relevant ← search index_search faiss query_embedding 15;
        Ok (extra_relevant,
            question request +:+ nl +:+ nl +:+ "OCR result:" +:+ nl
            +:+ ocr_text)
      with
      | Raise e => HTTPException 400 ("OCR decoding error: " +:+ exn_str e)
      | Ok (extra_relevant, augmented_query) =>
          chat_query (Some extra_relevant) augmented_query
      end
  | None => chat_query None (question request)
  end.

End Chat.

(** Concrete objects for the runs of the ingestion and query code. *)
Definition meta_0 : Dict :=
  {[ "source" := VStr "doc1"; "chunk_id" := VInt 0 ]}.
Definition meta_1 : Dict :=
  {[ "source" := VStr "doc1"; "chunk_id" := VInt 1 ]}.

Definition empty_store : store float :=
  {| g_index := {| d := 2; xb := [] |}; g_metadata := [] |}.

(** What every excerpt of [generate_excerpts] satisfies: it is a record of
    the store with its text, and the record has a source and a chunk id. *)
Definition sound_excerpt (records : list Dict) (e : value * Dict) : Prop :=
  snd e ∈ records
  /\ snd e !! "text" = Some (fst e)
  /\ is_Some (snd e !! "source")
  /\ is_Some (snd e !! "chunk_id").

(** The metadata file holds text that is not JSON. *)
Definition unreadable_meta_files : gmap string (file float) :=
  {[ "ix.faiss" := FaissFile {| d := 2; xb := nd_rows two_rows |};
     "meta.json" := OtherFile true ]}.

(** The metadata file holds bytes that are not text. *)
Definition undecodable_meta_files : gmap string (file float) :=
  {[ "ix.faiss" := FaissFile {| d := 2; xb := nd_rows two_rows |};
     "meta.json" := OtherFile false ]}.

Definition same_path_index : FAISSIndex float :=
  {| embed_dim := 2; index_path := "model.bin"; meta_path := "model.bin";
     index := {| d := 2; xb := nd_rows two_rows |};
     metadata := [record_a; record_b];
     similarity_threshold := 0.5%float |}.

(** Stand-ins for the collaborators of the route. *)
Definition failing_ocr (image_data : string) : result string :=
  Raise ValueError.
Definition reading_ocr (image_data : string) : result string :=
  Ok "text".
Definition plain_exn_str (e : exn) : string := "error".
Definition fixed_answer (prompt : string) : chat_outcome :=
  ChatResponse prompt [].

(** ** [ingest_dir] of the OpenAI script *)

(** [c.lower()] for a character below 256 *)
Definition lower_char (c : ascii) : ascii :=
  let n := nat_of_ascii c in
  if ((65 <=? n)%nat && (n <=? 90)%nat)
     || ((192 <=? n)%nat && (n <=? 214)%nat)
     || ((216 <=? n)%nat && (n <=? 222)%nat)
  then ascii_of_nat (n + 32) else c.

(** [s.lower()] *)
Fixpoint lower (s : string) : string :=
  match s with
  | EmptyString => EmptyString
  | String c s' => String (lower_char c) (lower s')
  end.

(** [s.endswith(suffix)] *)
Definition endswith (s suffix : string) : bool :=
  let n := String.length s in
  let m := String.length suffix in
  (m <=? n)%nat && String.eqb (substring (n - m) m s) suffix.

(** [fname.lower().endswith((".txt", ".html", ".md"))] *)
Definition supported (fname : string) : bool :=
  let l := lower fname in
  endswith l ".txt" || endswith l ".html" || endswith l ".md".

Definition BATCH_SIZE : Z := 16.

Section IngestDir.

Context {F : Type} `{Scalar F}.

Variable ENC : Encoding.
Variable embeddings_create : string -> result (list F).
(** [load_file], which reads a file and strips its markup *)
Variable load_file : string -> result string.
(** [get_source], which derives the locator of a file *)
Variable get_source : string -> result string.
(** [os.path.join] *)
Variable path_join : string -> string -> string.

(** The local [batch_texts] and [batch_meta] with the module-level index
    and metadata. *)
Record ingest_state : Type := {
  batch_texts : list string;
  batch_meta : list Dict;
  globals : store F
}.

(** The [for idx, chunk in enumerate(chunks)] loop. *)
Fixpoint ingest_chunks (full : string) (idx : Z) (chunks : list string)
    (s : ingest_state) : result unit * ingest_state :=
  match chunks with
  | [] => (Ok (), s)
  | chunk :: chunks' =>
      match get_source full with
      | Raise e => (Raise e, s)
      | Ok source =>
          let meta : Dict :=
            {[ "source" := VStr source; "chunk_id" := VInt idx ]} in
          let texts := batch_texts s ++ [chunk] in
          let metas := batch_meta s ++ [meta] in
          if BATCH_SIZE <=? len texts then
            match index_batch embeddings_create texts metas (globals s) with
            | (Raise e, g) =>
                (Raise e, {| batch_texts := texts; batch_meta := metas;
                             globals := g |})
            | (Ok _, g) =>
                ingest_chunks full (idx + 1) chunks'
                  {| batch_texts := []; batch_meta := []; globals := g |}
            end
          else
            ingest_chunks full (idx + 1) chunks'
              {| batch_texts := texts; batch_meta := metas;
                 globals := globals s |}
      end
  end.

(** The [for fname in files] loop.  [fuel] is the budget of each call of
    [chunk_by_tokens]. *)
Fixpoint ingest_files (fuel : nat) (dirpath : string) (files : list string)
    (s : ingest_state) : option (result unit * ingest_state) :=
  match files with
  | [] => Some (Ok (), s)
  | fname :: files' =>
      if negb (supported fname) then ingest_files fuel dirpath files' s
      else
        let full := path_join dirpath fname in
        match load_file full with
        | Raise e => Some (Raise e, s)
        | Ok text =>
            match chunk_by_tokens ENC fuel text 8000 200 with
            | None => None
            | Some chunks =>
                match ingest_chunks full 0 chunks s with
                | (Raise e, s') => Some (Raise e, s')
                | (Ok _, s') => ingest_files fuel dirpath files' s'
                end
            end
        end
  end.

(** The [for dirpath, _, files in os.walk(root_dir)] loop; [tree] is what
    [os.walk] yields, without the directory names. *)
Fixpoint ingest_walk (fuel : nat) (tree : list (string * list string))
    (s : ingest_state) : option (result unit * ingest_state) :=
  match tree with
  | [] => Some (Ok (), s)
  | (dirpath, files) :: tree' =>
      match ingest_files fuel dirpath files s with
      | None => None
      | Some (Raise e, s') => Some (Raise e, s')
      | Some (Ok _, s') => ingest_walk fuel tree' s'
      end
  end.

Definition ingest_dir (fuel : nat) (tree : list (string * list string))
    (st : store F) : option (result unit * store F) :=
  match ingest_walk fuel tree
          {| batch_texts := []; batch_meta := []; globals := st |} with
  | None => None
  | Some (Raise e, s) => Some (Raise e, globals s)
  | Some (Ok _, s) =>
      match batch_texts s with
      | [] => Some (Ok (), globals s)
      | _ :: _ =>
          Some (index_batch embeddings_create (batch_texts s) (batch_meta s)
                  (globals s))
      end
  end.

End IngestDir.

(** A record as the ingestion writes it: the chunk as [text], the locator
    as [source], and the rank of the chunk in its file as [chunk_id]. *)
Definition ingested_record (m : Dict) : Prop :=
  exists (t s : string) (i : Z),
    0 <= i
    /\ m !! "text" = Some (VStr t)
    /\ m !! "source" = Some (VStr s)
    /\ m !! "chunk_id" = Some (VInt i).

(** The meta of a chunk before its text is added. *)
Definition chunk_meta (m : Dict) : Prop :=
  exists (s : string) (i : Z),
    0 <= i /\ m = {[ "source" := VStr s; "chunk_id" := VInt i ]}.

Section IngestInvariants.

Context {F : Type}.

(** What the stores hold after some batches: the records and vectors they
    had, then as many new vectors as new records, each record as the
    ingestion writes it. *)
Definition grown_from (st0 g : store F) : Prop :=
  exists (added : list Dict) (rows : list (list F)),
    g_metadata g = g_metadata st0 ++ added
    /\ xb (g_index g) = xb (g_index st0) ++ rows
    /\ length rows = length added
    /\ Forall ingested_record added.

(** The pending batch: as many metas as texts, each the meta of a chunk. *)
Definition batch_ok (s : ingest_state (F := F)) : Prop :=
  length (batch_texts s) = length (batch_meta s)
  /\ Forall chunk_meta (batch_meta s).

End IngestInvariants.

(** Stand-ins for the file system of a run of [ingest_dir]. *)
Definition one_letter_file (path : string) : result string := Ok "a".
Definition path_as_source (path : string) : result string := Ok path.
Definition slash_join (dirpath fname : string) : string :=
  dirpath +:+ "/" +:+ fname.

(* ================================================================== *)
(** * Properties *)

(** ** Chunker *)

Section ChunkerFacts.

Variable ENC : Encoding.

Lemma chunk_loop_windows fuel tokens max_tokens overlap start ws :
  chunk_loop ENC fuel tokens max_tokens overlap start (map (decode ENC) ws)
  = option_map (map (decode ENC))
      (window_loop fuel tokens max_tokens overlap start ws).
Proof.
  revert start ws. induction fuel as [|fuel IH]; intros start ws; simpl.
  - reflexivity.
  - destruct (start <? len tokens); [|reflexivity].
    rewrite <- IH. f_equal. rewrite map_app. reflexivity.
Qed.

(** More budget never changes a result that was reached. *)
Lemma chunk_loop_mono fuel tokens max_tokens overlap start chunks out :
  chunk_loop ENC fuel tokens max_tokens overlap start chunks = Some out ->
  chunk_loop ENC (S fuel) tokens max_tokens overlap start chunks = Some out.
Proof.
  revert start chunks.
  induction fuel as [|fuel IH]; intros start chunks H; [discriminate|].
  simpl in H. cbn [chunk_loop].
  destruct (start <? len tokens); [|exact H].
  apply IH in H. exact H.
Qed.

Lemma chunk_loop_mono_le fuel fuel' tokens max_tokens overlap start chunks out :
  (fuel <= fuel')%nat ->
  chunk_loop ENC fuel tokens max_tokens overlap start chunks = Some out ->
  chunk_loop ENC fuel' tokens max_tokens overlap start chunks = Some out.
Proof.
  induction 1 as [|m _ IH]; [tauto|].
  intros H. apply chunk_loop_mono, IH, H.
Qed.

(** With a positive stride the distance to the end of the token list
    shrinks at every turn, so a budget above it is enough. *)
Lemma chunk_loop_terminates fuel tokens max_tokens overlap start chunks :
  overlap < max_tokens ->
  (Z.to_nat (len tokens - start) < fuel)%nat ->
  exists out,
    chunk_loop ENC fuel tokens max_tokens overlap start chunks = Some out.
Proof.
  intros Hstride. revert start chunks.
  induction fuel as [|fuel IH]; intros start chunks Hfuel; [lia|].
  simpl. destruct (Z.ltb_spec start (len tokens)) as [Hlt|Hge].
  - apply IH. lia.
  - eauto.
Qed.

(** With a stride that is not positive, [start] never passes the end of
    a non-empty token list. *)
Lemma chunk_loop_diverges fuel tokens max_tokens overlap start chunks :
  max_tokens <= overlap ->
  start < len tokens ->
  chunk_loop ENC fuel tokens max_tokens overlap start chunks = None.
Proof.
  intros Hstride. revert start chunks.
  induction fuel as [|fuel IH]; intros start chunks Hlt; [reflexivity|].
  simpl. destruct (Z.ltb_spec start (len tokens)) as [_|Hge]; [|lia].
  apply IH. lia.
Qed.

End ChunkerFacts.

(** C3 (as amended).  [chunk_by_tokens] returns on every text when
    [overlap < max_tokens]: a budget above the number of tokens is enough and
    every such budget gives the same chunks.  The function checks nothing
    about its configuration and rejects none: on a text without tokens it
    returns the empty list for every [max_tokens] and [overlap]. *)
Theorem chunk_by_tokens_terminates (ENC : Encoding) (text : string)
    (max_tokens overlap : Z) :
  (overlap < max_tokens ->
   exists chunks, forall fuel,
     (length (encode ENC (replace_newlines text)) < fuel)%nat ->
     chunk_by_tokens ENC fuel text max_tokens overlap = Some chunks)
  /\ (encode ENC (replace_newlines text) = [] ->
      forall fuel,
        chunk_by_tokens ENC (S fuel) text max_tokens overlap = Some []).
Proof.
  unfold chunk_by_tokens. split.
  - intros Hstride.
    set (tokens := encode ENC (replace_newlines text)).
    destruct (chunk_loop_terminates ENC (S (length tokens)) tokens
                max_tokens overlap 0 [] Hstride) as [out Hout].
    { unfold len. lia. }
    exists out. intros fuel Hfuel.
    eapply chunk_loop_mono_le; [|exact Hout]. lia.
  - intros -> fuel. reflexivity.
Qed.

Lemma chunk_by_tokens_terminates_witness :
  (exists chunks, forall fuel,
     (length (encode char_encoding (replace_newlines "ab cd")) < fuel)%nat ->
     chunk_by_tokens char_encoding fuel "ab cd" 3 1 = Some chunks)
  /\ (forall fuel, chunk_by_tokens char_encoding (S fuel) "" 1 4 = Some []).
Proof.
  split.
  - apply (proj1 (chunk_by_tokens_terminates char_encoding "ab cd" 3 1)). lia.
  - apply (proj2 (chunk_by_tokens_terminates char_encoding "" 1 4)).
    reflexivity.
Defined.

(** C3 fails as stated: with [overlap >= max_tokens] nothing is rejected.  On
    the one-token text ["a"] with [max_tokens = overlap = 2] no budget lets
    the loop return, and on the empty text the call returns [[]]. *)
Lemma chunk_by_tokens_no_fail_fast :
  (forall fuel, chunk_by_tokens char_encoding fuel "a" 2 2 = None)
  /\ chunk_by_tokens char_encoding 1 "" 2 2 = Some [].
Proof.
  split; [|reflexivity].
  intros fuel. unfold chunk_by_tokens.
  apply chunk_loop_diverges; [lia|]. vm_compute. reflexivity.
Qed.

(** C9 (as amended).  On a text of exactly 25 tokens, [max_tokens = 10] and
    [overlap = 2] give the windows starting at 0, 8, 16 and 24: exactly four
    chunks, of 10, 10, 9 and 1 tokens. *)
Theorem chunk_by_tokens_25_tokens (ENC : Encoding) (text : string) :
  let tokens := encode ENC (replace_newlines text) in
  length tokens = 25%nat ->
  let ws := [take 10 tokens; take 10 (drop 8 tokens);
             drop 16 tokens; drop 24 tokens] in
  map length ws = [10; 10; 9; 1]%nat
  /\ forall fuel, (5 <= fuel)%nat ->
       chunk_by_tokens ENC fuel text 10 2 = Some (map (decode ENC) ws).
Proof.
  intros tokens Hlen ws. subst ws.
  unfold chunk_by_tokens. fold tokens.
  do 26 (destruct tokens as [|? tokens]; try discriminate Hlen).
  split; [reflexivity|].
  intros fuel Hfuel.
  eapply chunk_loop_mono_le; [exact Hfuel|]. reflexivity.
Qed.

Lemma chunk_by_tokens_25_tokens_witness :
  exists ws : list (list Z),
    map length ws = [10; 10; 9; 1]%nat
    /\ chunk_by_tokens char_encoding 5 "abcdefghijklmnopqrstuvwxy" 10 2
       = Some (map (decode char_encoding) ws).
Proof.
  destruct (chunk_by_tokens_25_tokens char_encoding
              "abcdefghijklmnopqrstuvwxy" eq_refl) as [Hlens Hrun].
  eexists. split; [exact Hlens|]. apply Hrun. lia.
Defined.

(** C9 fails as stated: it is not the case that every 25-token text yields
    three chunks of 10, 10 and 7 tokens; the 25-letter text below yields
    four. *)
Lemma chunk_by_tokens_25_not_3_chunks :
  ~ (forall (ENC : Encoding) (text : string),
       length (encode ENC (replace_newlines text)) = 25%nat ->
       exists fuel ws,
         chunk_windows ENC fuel text 10 2 = Some ws
         /\ map length ws = [10; 10; 7]%nat).
Proof.
  intros H.
  destruct (H char_encoding "abcdefghijklmnopqrstuvwxy" eq_refl)
    as (fuel & ws & Hrun & Hlens).
  do 5 (destruct fuel as [|fuel]; [discriminate Hrun|]).
  vm_compute in Hrun. injection Hrun as <-. discriminate Hlens.
Qed.

(** ** Embedding *)

Section EmbeddingFacts.

Context {F : Type} `{Scalar F}.

Lemma np_div_length (v : list F) (s : F) : length (np_div v s) = length v.
Proof. unfold np_div. apply length_map. Qed.

Lemma np_div_lookup (v : list F) (s : F) (i : nat) (x : F) :
  v !! i = Some x -> np_div v s !! i = Some (fdiv x s).
Proof. intros Hx. unfold np_div. rewrite list_lookup_fmap, Hx. reflexivity. Qed.

(** One level of the fallback of [safe_embed]: split at the character
    midpoint, embed both halves, halve the sum.  Nothing follows the
    division by two. *)
Lemma safe_embed_split (client : string -> result (list F)) (fuel : nat)
    (text msg : string) (l r : list F) :
  embed_text client text = Raise (BadRequestError msg) ->
  contains "maximum context length" msg = true ->
  safe_embed client fuel (prefix_to text (slen text / 2)) = Some (Ok l) ->
  safe_embed client fuel (suffix_from text (slen text / 2)) = Some (Ok r) ->
  safe_embed client (S fuel) text
  = Some (s ← np_add l r; Ok (np_div s ftwo)).
Proof.
  intros Hraise Hmsg Hl Hr. cbn [safe_embed].
  rewrite Hraise, Hmsg, Hl, Hr. reflexivity.
Qed.

(** In the manual script [embed_text] catches every exception itself, so
    [safe_embed] returns its answer and never splits. *)
Lemma safe_embed_manual_no_split (client : string -> result (list F))
    (fuel : nat) (text : string) :
  safe_embed_manual client (S fuel) text
  = Some (embed_text_manual client text).
Proof.
  cbn [safe_embed_manual]. unfold embed_text_manual.
  destruct (embed_text client text); reflexivity.
Qed.

End EmbeddingFacts.

Lemma float_zero_sq_acc : (0 + 0 * 0)%float = 0%float.
Proof. reflexivity. Qed.

Lemma float_norm_zero (n : nat) : norm (replicate n 0%float) = 0%float.
Proof.
  unfold norm.
  assert (Hsum : foldl fadd fzero
                   (map (fun x : float => fmul x x) (replicate n 0%float))
                 = 0%float).
  { induction n as [|n IH]; [reflexivity|].
    cbn [replicate map foldl]. cbn [fadd fmul fzero float_scalar].
    rewrite float_zero_sq_acc. exact IH. }
  rewrite Hsum. reflexivity.
Qed.

Lemma float_normalize_zero (n : nat) :
  np_div (replicate n 0%float) (norm (replicate n 0%float)) = replicate n nan.
Proof.
  rewrite float_norm_zero. unfold np_div.
  induction n as [|n IH]; [reflexivity|].
  cbn [replicate map]. rewrite IH. reflexivity.
Qed.

(** C4 (as amended).  [embed_text] and [LLM.embed] divide the raw embedding
    by its Euclidean norm without looking at the norm: whenever the external
    call returns a vector, the result has the same length, its [i]-th
    component is the [i]-th raw component divided by the norm, and no
    exception is raised.  On binary64 floats an all-zero raw vector is
    therefore turned into a vector of NaN. *)
Theorem embed_text_unchecked_division :
  (forall (F : Type) (SF : Scalar F) (client : string -> result (list F))
          (text : string) (raw : list F),
     client (replace_newlines text) = Ok raw ->
     exists v, embed_text client text = Ok v
               /\ length v = length raw
               /\ forall i x, raw !! i = Some x ->
                              v !! i = Some (fdiv x (norm raw)))
  /\ (forall (F : Type) (SF : Scalar F) (client : string -> result (list F))
             (text : string) (raw : list F),
        client text = Ok raw ->
        exists v, llm_embed client text = Ok v
                  /\ length v = length raw
                  /\ forall i x, raw !! i = Some x ->
                                 v !! i = Some (fdiv x (norm raw)))
  /\ (forall (client : string -> result (list float)) (text : string)
             (n : nat),
        client (replace_newlines text) = Ok (replicate n 0%float) ->
        embed_text client text = Ok (replicate n nan)).
Proof.
  split; [|split].
  - intros F SF client text raw Hraw. unfold embed_text. rewrite Hraw.
    eexists. split; [reflexivity|]. split.
    + apply np_div_length.
    + intros i x. apply np_div_lookup.
  - intros F SF client text raw Hraw. unfold llm_embed. rewrite Hraw.
    eexists. split; [reflexivity|]. split.
    + apply np_div_length.
    + intros i x. apply np_div_lookup.
  - intros client text n Hraw. unfold embed_text. rewrite Hraw.
    cbn [mbind result_bind Py.bind]. f_equal. apply float_normalize_zero.
Qed.

Lemma embed_text_unchecked_division_witness :
  (exists v, embed_text short_client "a" = Ok v
             /\ length v = 2%nat
             /\ forall i x, [1%float; 0%float] !! i = Some x ->
                  v !! i = Some (fdiv x (norm [1%float; 0%float])))
  /\ embed_text zero_client "x" = Ok [nan; nan].
Proof.
  split.
  - apply (proj1 embed_text_unchecked_division float float_scalar
             short_client "a" [1%float; 0%float]).
    reflexivity.
  - apply (proj2 (proj2 embed_text_unchecked_division) zero_client "x" 2%nat).
    reflexivity.
Defined.

(** C4 fails as stated: when the external call answers with the zero
    vector, whose norm is zero, neither [embed_text] nor [LLM.embed] raises;
    both return the quotient of zero by zero in every component. *)
Lemma embed_text_zero_vector_not_rejected :
  embed_text zero_client "x" = Ok [nan; nan]
  /\ llm_embed zero_client "x" = Ok [nan; nan]
  /\ norm [0%float; 0%float] = 0%float.
Proof. repeat split; reflexivity. Qed.

(** C8, at the failing input.  [short_client] refuses the two-character
    text ["ab"] for its length and embeds ["a"] and ["b"] as the unit vectors
    (1, 0) and (0, 1).  [safe_embed] returns their average (0.5, 0.5) as it
    is; its norm is below 0.75, not 1. *)
Theorem safe_embed_average_not_unit :
  embed_text short_client "ab"
  = Raise (BadRequestError
             "This model's maximum context length is 8192 tokens")
  /\ safe_embed short_client 1 "a" = Some (Ok [1%float; 0%float])
  /\ safe_embed short_client 1 "b" = Some (Ok [0%float; 1%float])
  /\ safe_embed short_client 2 "ab" = Some (Ok [0.5%float; 0.5%float])
  /\ PrimFloat.ltb (norm [0.5%float; 0.5%float]) 0.75%float = true
  /\ PrimFloat.eqb (norm [0.5%float; 0.5%float]) 1%float = false.
Proof. repeat split; vm_compute; reflexivity. Qed.

(** ** The index: [add_embeddings], [load_index], [save_index] *)

Section IndexFacts.

Context {F : Type} `{Scalar F}.

Implicit Types (self : FAISSIndex F) (fs : gmap string (file F)).

Variable index_is_text : IndexFlatIP F -> bool.

Lemma len_app {A} (l1 l2 : list A) : len (l1 ++ l2) = len l1 + len l2.
Proof. unfold len. rewrite length_app. lia. Qed.

(** [add_embeddings] succeeds exactly when the dimension assertion of the
    library passes. *)
Lemma add_embeddings_ok embeddings md self :
  nd_cols embeddings = d (index self) ->
  add_embeddings embeddings md self
  = (Ok (),
     set_metadata
       (set_index self {| d := d (index self);
                          xb := xb (index self) ++ nd_rows embeddings |})
       (metadata self ++ md)).
Proof.
  intros Hd. unfold add_embeddings, faiss_add.
  rewrite Hd, Z.eqb_refl. reflexivity.
Qed.

Lemma add_embeddings_raise embeddings md self :
  nd_cols embeddings <> d (index self) ->
  add_embeddings embeddings md self = (Raise AssertionError, self).
Proof.
  intros Hd. unfold add_embeddings, faiss_add.
  destruct (Z.eqb_spec (nd_cols embeddings) (d (index self))); [tauto|].
  reflexivity.
Qed.

Lemma add_embeddings_inv embeddings md self self' :
  add_embeddings embeddings md self = (Ok (), self') ->
  nd_cols embeddings = d (index self)
  /\ self' = set_metadata
               (set_index self
                  {| d := d (index self);
                     xb := xb (index self) ++ nd_rows embeddings |})
               (metadata self ++ md).
Proof.
  intros Hrun.
  destruct (Z.eq_dec (nd_cols embeddings) (d (index self))) as [Hd|Hd].
  - rewrite add_embeddings_ok in Hrun by exact Hd.
    split; [exact Hd|]. congruence.
  - rewrite add_embeddings_raise in Hrun by exact Hd. discriminate.
Qed.

(** What [load_index] does when both files are there and readable: it
    takes both as they are. *)
Lemma load_index_reads_both fs self ix md :
  fs !! index_path self = Some (FaissFile ix) ->
  fs !! meta_path self = Some (JsonFile md) ->
  load_index index_is_text fs self
  = (Ok (), set_metadata (set_index self ix) md).
Proof.
  intros Hix Hmd. unfold load_index, path_exists, read_index, json_load.
  rewrite Hix. cbn [set_index meta_path]. rewrite Hmd.
  rewrite !bool_decide_eq_true_2 by eauto. reflexivity.
Qed.

Lemma load_index_missing fs self :
  fs !! index_path self = None \/ fs !! meta_path self = None ->
  load_index index_is_text fs self = (Ok (), self).
Proof.
  intros Hmiss. unfold load_index, path_exists.
  destruct Hmiss as [Hmiss|Hmiss]; rewrite Hmiss.
  - rewrite (bool_decide_eq_false_2 (is_Some None)); [reflexivity|].
    apply is_Some_None.
  - rewrite (bool_decide_eq_false_2 (is_Some None)) by apply is_Some_None.
    rewrite andb_false_r. reflexivity.
Qed.

End IndexFacts.

(** C1 (as amended).  [add_embeddings] does not compare the number of
    vectors with the number of metadata records.  A call succeeds exactly
    when the width of the array equals the dimension of the index, and it
    then adds every row and every record it was given; a call that raises
    leaves vectors and metadata as they were.  Hence, from an index whose two
    counts agree (the empty one in particular), any sequence of successful
    calls that each pass as many vectors as records ends with equal
    counts. *)
Theorem add_embeddings_alignment (F : Type) :
  (forall (self self' : FAISSIndex F) embeddings md,
     add_embeddings embeddings md self = (Ok (), self') ->
     ntotal (index self') = ntotal (index self) + len (nd_rows embeddings)
     /\ len (metadata self') = len (metadata self) + len md)
  /\ (forall (self : FAISSIndex F) embeddings md,
        nd_cols embeddings = d (index self) <->
        exists self', add_embeddings embeddings md self = (Ok (), self'))
  /\ (forall (self self' : FAISSIndex F) embeddings md e,
        add_embeddings embeddings md self = (Raise e, self') ->
        self' = self)
  /\ (forall calls (self self' : FAISSIndex F),
        ntotal (index self) = len (metadata self) ->
        Forall (fun call : ndarray F * list Dict =>
                  len (nd_rows (fst call)) = len (snd call)) calls ->
        add_all calls self = (Ok (), self') ->
        ntotal (index self') = len (metadata self')).
Proof.
  split; [|split; [|split]].
  - intros self self' embeddings md Hrun.
    apply add_embeddings_inv in Hrun as [_ ->].
    unfold ntotal. cbn. rewrite !len_app. lia.
  - intros self embeddings md. split.
    + intros Hd. eexists. apply add_embeddings_ok, Hd.
    + intros [self' Hrun]. apply add_embeddings_inv in Hrun. tauto.
  - intros self self' embeddings md e Hrun.
    destruct (Z.eq_dec (nd_cols embeddings) (d (index self))) as [Hd|Hd].
    + rewrite add_embeddings_ok in Hrun by exact Hd. discriminate.
    + rewrite add_embeddings_raise in Hrun by exact Hd. congruence.
  - intros calls. induction calls as [|[embeddings md] calls IH];
      intros self self' Haligned Hcalls Hrun.
    + cbn in Hrun. congruence.
    + apply Forall_cons in Hcalls as [Hcall Hcalls]. cbn [fst snd] in Hcall.
      cbn [add_all] in Hrun.
      destruct (add_embeddings embeddings md self) as [[[]|e] self1] eqn:Hadd;
        [|discriminate].
      apply (IH self1 self'); [|exact Hcalls|exact Hrun].
      apply add_embeddings_inv in Hadd as [_ ->].
      unfold ntotal in *. cbn. rewrite !len_app. lia.
Qed.

Lemma add_embeddings_alignment_witness :
  (exists self', add_all [(two_rows, [record_a; record_b])] empty_index
                 = (Ok (), self')
                 /\ ntotal (index self') = len (metadata self')).
Proof.
  eexists. split; [reflexivity|].
  eapply (proj2 (proj2 (proj2 (add_embeddings_alignment float)))
            [(two_rows, [record_a; record_b])] empty_index).
  - reflexivity.
  - repeat constructor.
  - reflexivity.
Defined.

(** C1 fails as stated: starting from the empty index, a call with two
    vectors and one metadata record succeeds; afterwards two vectors are
    stored and one record. *)
Lemma add_embeddings_mismatch_accepted :
  init binary_index 2 "ix.faiss" "meta.json" 0.5%float ∅ = Ok empty_index
  /\ exists self',
       add_embeddings two_rows [record_a] empty_index = (Ok (), self')
       /\ ntotal (index self') = 2
       /\ len (metadata self') = 1.
Proof.
  split; [reflexivity|]. eexists. split; [reflexivity|]. split; reflexivity.
Qed.

(** C10.  A successful [add_embeddings] appends the given metadata
    records, in their order, after the stored ones, and the given rows after
    the stored vectors.  Everything stored before is still there at the same
    position, and [embed_dim], [similarity_threshold], [index_path],
    [meta_path] and the dimension of the index keep their values. *)
Theorem add_embeddings_frame (F : Type)
    (self self' : FAISSIndex F) (embeddings : ndarray F) (md : list Dict) :
  add_embeddings embeddings md self = (Ok (), self') ->
  metadata self' = metadata self ++ md
  /\ xb (index self') = xb (index self) ++ nd_rows embeddings
  /\ (forall i r, metadata self !! i = Some r -> metadata self' !! i = Some r)
  /\ (forall i v, xb (index self) !! i = Some v ->
                  xb (index self') !! i = Some v)
  /\ d (index self') = d (index self)
  /\ embed_dim self' = embed_dim self
  /\ similarity_threshold self' = similarity_threshold self
  /\ index_path self' = index_path self
  /\ meta_path self' = meta_path self.
Proof.
  intros Hrun. apply add_embeddings_inv in Hrun as [_ ->]. cbn.
  repeat split; try reflexivity.
  - intros i r Hr. apply lookup_app_l_Some, Hr.
  - intros i v Hv. apply lookup_app_l_Some, Hv.
Qed.

(** A call on an index that already holds two vectors and two records:
    the two new vectors and the new record come after them. *)
Lemma add_embeddings_frame_witness :
  exists self',
    add_embeddings two_rows [record_a'] loaded_index = (Ok (), self')
    /\ metadata self' = [record_a; record_b] ++ [record_a']
    /\ xb (index self')
       = [[1%float; 0%float]; [0%float; 1%float]] ++ nd_rows two_rows
    /\ metadata self' !! 1%nat = Some record_b
    /\ xb (index self') !! 1%nat = Some [0%float; 1%float]
    /\ similarity_threshold self' = 0.5%float
    /\ index_path self' = "ix.faiss".
Proof.
  eexists. split; [reflexivity|].
  destruct (add_embeddings_frame float loaded_index _
              two_rows [record_a'] eq_refl)
    as (Hmd & Hxb & Hold_md & Hold_xb & _ & _ & Hthr & Hpath & _).
  split; [exact Hmd|]. split; [exact Hxb|].
  split; [apply Hold_md; reflexivity|].
  split; [apply Hold_xb; reflexivity|].
  split; [exact Hthr|exact Hpath].
Defined.

(** C5.  Saving an index and constructing a fresh instance on the same two
    paths, which are two different files, gives an instance holding exactly
    the saved vectors (so equal within any tolerance), in the same order,
    and exactly the saved metadata records, in the same order.  The
    dimension and threshold passed to the fresh instance and the earlier
    contents of the file system play no part. *)
Theorem save_load_roundtrip (F : Type)
    (index_is_text : IndexFlatIP F -> bool)
    (self : FAISSIndex F) (fs : gmap string (file F))
    (embed_dim' : Z) (threshold' : F) :
  index_path self <> meta_path self ->
  exists fresh,
    init index_is_text embed_dim' (index_path self) (meta_path self)
      threshold' (save_index self fs) = Ok fresh
    /\ xb (index fresh) = xb (index self)
    /\ index fresh = index self
    /\ metadata fresh = metadata self.
Proof.
  intros Hpaths. unfold init.
  rewrite (load_index_reads_both _ _ _ (index self) (metadata self)).
  - eexists. split; [reflexivity|]. cbn. auto.
  - cbn [index_path]. unfold save_index, json_dump, write_index.
    rewrite lookup_insert_ne by congruence. apply lookup_insert_eq.
  - cbn [meta_path]. unfold save_index, json_dump, write_index.
    apply lookup_insert_eq.
Qed.

Lemma save_load_roundtrip_witness :
  exists fresh,
    init binary_index 7 "ix.faiss" "meta.json" 0%float
      (save_index loaded_index ∅)
    = Ok fresh
    /\ xb (index fresh) = nd_rows two_rows
    /\ index fresh = index loaded_index
    /\ metadata fresh = [record_a; record_b].
Proof.
  apply (save_load_roundtrip float binary_index loaded_index ∅ 7 0%float).
  cbn. discriminate.
Defined.

(** C6 (as amended).  [load_index] never compares the number of vectors
    with the number of metadata records.  When both paths exist and hold a
    readable index and a readable record list, it takes both as they are,
    whatever their sizes; when one of the paths does not exist it leaves the
    object as it is, which at construction is the empty index. *)
Theorem load_index_unchecked (F : Type)
    (index_is_text : IndexFlatIP F -> bool)
    (fs : gmap string (file F)) (self : FAISSIndex F) :
  (forall ix md,
     fs !! index_path self = Some (FaissFile ix) ->
     fs !! meta_path self = Some (JsonFile md) ->
     exists self',
       load_index index_is_text fs self = (Ok (), self')
       /\ index self' = ix /\ metadata self' = md)
  /\ (fs !! index_path self = None \/ fs !! meta_path self = None ->
      load_index index_is_text fs self = (Ok (), self)).
Proof.
  split.
  - intros ix md Hix Hmd. eexists. split.
    + apply load_index_reads_both; eassumption.
    + cbn. auto.
  - apply load_index_missing.
Qed.

Lemma load_index_unchecked_witness :
  (exists self',
     load_index binary_index mismatched_files empty_index = (Ok (), self')
     /\ index self' = {| d := 2; xb := nd_rows two_rows |}
     /\ metadata self' = [record_a])
  /\ load_index binary_index ∅ empty_index = (Ok (), empty_index).
Proof.
  split.
  - apply (proj1 (load_index_unchecked float binary_index
                    mismatched_files empty_index)); reflexivity.
  - apply (proj2 (load_index_unchecked float binary_index ∅ empty_index)).
    left. reflexivity.
Defined.

(** C6 fails as stated: for an index file with two vectors and a metadata
    file with one record, construction succeeds and the instance holds two
    vectors and one record; it is neither rejected nor empty. *)
Lemma load_index_mismatch_accepted :
  exists self,
    init binary_index 2 "ix.faiss" "meta.json" 0.5%float mismatched_files
    = Ok self
    /\ ntotal (index self) = 2
    /\ len (metadata self) = 1.
Proof.
  eexists. split; [vm_compute; reflexivity|]. split; reflexivity.
Qed.

(** ** [search] *)

Section SearchFacts.

Context {F : Type} `{ScalarOrder F}.

Implicit Types (a b c h : Z * F) (thr : F).

Lemma qualifies_upward thr a b :
  score_order a b -> qualifies thr b -> qualifies thr a.
Proof. unfold score_order, qualifies. apply fgeb_trans. Qed.

Lemma search_loop_filter thr (pairs results : list (Z * F)) :
  search_loop thr pairs results = results ++ filter (qualifies thr) pairs.
Proof.
  revert results. induction pairs as [|[idx score] pairs IH]; intros results.
  - cbn. rewrite app_nil_r. reflexivity.
  - cbn [search_loop]. destruct (fgeb score thr) eqn:Hq; rewrite IH.
    + rewrite filter_cons_True by exact Hq.
      rewrite <- app_assoc. reflexivity.
    + rewrite filter_cons_False; [reflexivity|].
      unfold qualifies. cbn. congruence.
Qed.

Lemma filter_replicate_False {A} (P : A -> Prop) `{forall x, Decision (P x)}
    (n : nat) (x : A) :
  ~ P x -> filter P (replicate n x) = [].
Proof.
  intros Hx. induction n as [|n IH]; [reflexivity|].
  cbn [replicate]. rewrite filter_cons_False by exact Hx. exact IH.
Qed.

Lemma filter_all {A} (P : A -> Prop) `{forall x, Decision (P x)}
    (l : list A) :
  Forall P l -> filter P l = l.
Proof.
  induction 1 as [|y l Hy _ IH]; [reflexivity|].
  rewrite filter_cons_True by exact Hy. rewrite IH. reflexivity.
Qed.

Lemma StronglySorted_impl_on {A} (P : A -> Prop) (R1 R2 : relation A)
    (l : list A) :
  (forall x y, P x -> P y -> R1 x y -> R2 x y) ->
  Forall P l ->
  StronglySorted R1 l -> StronglySorted R2 l.
Proof.
  intros HR HP. induction 1 as [|x l _ IH Hx]; [constructor|].
  apply Forall_cons in HP as [HPx HP].
  constructor; [exact (IH HP)|].
  rewrite Forall_forall in Hx, HP. apply Forall_forall. intros y Hy.
  apply HR; auto.
Qed.

(** A sorted list is strongly sorted when the relation is transitive among
    its elements. *)
Lemma Sorted_StronglySorted_on {A} (P : A -> Prop) (R : relation A)
    (l : list A) :
  (forall x y z, P x -> P y -> P z -> R x y -> R y z -> R x z) ->
  Forall P l ->
  Sorted R l -> StronglySorted R l.
Proof.
  intros Htrans HP. induction 1 as [|x l _ IH Hhd]; [constructor|].
  apply Forall_cons in HP as [HPx HP]. specialize (IH HP).
  constructor; [exact IH|].
  destruct Hhd as [|y l' Hxy]; [constructor|].
  apply StronglySorted_cons in IH as [Hy _].
  apply Forall_cons in HP as [HPy HP].
  constructor; [exact Hxy|].
  rewrite Forall_forall in Hy, HP. apply Forall_forall. intros z Hz.
  apply (Htrans x y z); auto.
Qed.

Lemma StronglySorted_take {A} (R : relation A) (l : list A) (n : nat) :
  StronglySorted R l -> StronglySorted R (take n l).
Proof.
  intros Hs. rewrite <- (take_drop n l) in Hs.
  apply StronglySorted_app in Hs. tauto.
Qed.

Lemma StronglySorted_filter {A} (R : relation A) (P : A -> Prop)
    `{forall x, Decision (P x)} (l : list A) :
  StronglySorted R l -> StronglySorted R (filter P l).
Proof.
  induction 1 as [|x l _ IH Hx]; [constructor|].
  destruct (decide (P x)) as [HPx|HPx].
  - rewrite filter_cons_True by exact HPx. constructor; [exact IH|].
    apply Forall_forall. intros y Hy.
    apply list_elem_of_filter in Hy as [_ Hy].
    rewrite Forall_forall in Hx. auto.
  - rewrite filter_cons_False by exact HPx. exact IH.
Qed.

(** Stored positions are distinct. *)
Lemma scored_NoDup (ix : IndexFlatIP F) (q : list F) : NoDup (scored ix q).
Proof.
  apply (NoDup_fmap_1 fst). unfold scored.
  rewrite fmap_imap.
  rewrite (imap_ext _ (fun i _ => Z.of_nat i)) by reflexivity.
  rewrite imap_seq_0. apply NoDup_fmap_2; [|apply NoDup_seq].
  intros i j Hij. lia.
Qed.

(** *** What [search] does with any library search that keeps its
    contract *)

Section AnyLibrary.

Variable index_search
  : IndexFlatIP F -> list F -> Z -> result (list F * list Z).
Hypothesis index_search_ok : search_contract index_search.

(** [search] is the library's answer without the places below the
    threshold; the vacant places are among those dropped. *)
Lemma search_eq (self : FAISSIndex F) (q : list F) (k : Z) :
  len q = d (index self) ->
  1 <= k ->
  Forall ordered_score (scored (index self) q) ->
  fgeb flowest (similarity_threshold self) = false ->
  exists found : list (Z * F),
    search index_search self q k
    = Ok (filter (qualifies (similarity_threshold self)) found)
    /\ (length found <= Z.to_nat k)%nat
    /\ NoDup found
    /\ (forall h, h ∈ found -> h ∈ scored (index self) q)
    /\ StronglySorted score_order found
    /\ (forall h, h ∈ scored (index self) q ->
          h ∈ found
          \/ fgeb flowest (snd h) = true
          \/ (length found = Z.to_nat k
              /\ forall h', h' ∈ found -> score_order h' h)).
Proof.
  intros Hq Hk Hord Hlow.
  destruct (index_search_ok (index self) q k Hq Hk Hord)
    as (found & Hrun & Hrest).
  exists found. split; [|exact Hrest].
  unfold search. cbn zeta in Hrun. rewrite Hrun.
  cbn [mbind result_bind Py.bind]. f_equal.
  rewrite (zip_fst_snd (_ ++ _)), search_loop_filter, app_nil_l, filter_app.
  rewrite filter_replicate_False
    by (unfold qualifies; cbn [snd]; congruence).
  apply app_nil_r.
Qed.

(** The hits are the places of the library's answer at or above the
    threshold, in the order of the answer. *)
Lemma search_library_order (self : FAISSIndex F) (q : list F) (k : Z)
    (hits : list (Z * F)) :
  search index_search self q k = Ok hits ->
  exists distances indices,
    index_search (index self) q k = Ok (distances, indices)
    /\ hits = filter (qualifies (similarity_threshold self))
                (zip indices distances).
Proof.
  unfold search.
  destruct (index_search (index self) q k) as [[distances indices]|e];
    [|discriminate].
  cbn [mbind result_bind Py.bind]. rewrite search_loop_filter, app_nil_l.
  intros [= <-]. eauto.
Qed.

End AnyLibrary.

(** *** The exact searches keep the contract *)

Section ExactSearch.

Variable tie : Z -> Z -> bool.
Hypothesis tie_total : forall i j, tie i j = true \/ tie j i = true.
Hypothesis tie_trans :
  forall i j l, tie i j = true -> tie j l = true -> tie i l = true.

Lemma ranked_spec a b :
  ordered_score a -> ordered_score b ->
  ranked tie a b
  <-> score_order a b
      /\ (score_order b a -> tie (fst a) (fst b) = true).
Proof.
  unfold ordered_score, ranked, ranks_before, score_order. intros Ha Hb.
  destruct (fgeb (snd b) (snd a)) eqn:Hba.
  - rewrite andb_true_iff. tauto.
  - destruct (fgeb_total (snd a) (snd b) Ha Hb) as [Hab|Hab]; [|congruence].
    split; [|tauto]. intros _. split; [exact Hab|discriminate].
Qed.

Lemma ranked_trans_on a b c :
  ordered_score a -> ordered_score b -> ordered_score c ->
  ranked tie a b -> ranked tie b c -> ranked tie a c.
Proof.
  intros Ha Hb Hc. rewrite !ranked_spec by assumption. unfold score_order.
  intros [Hab Hab'] [Hbc Hbc']. split.
  - eapply fgeb_trans; eassumption.
  - intros Hca.
    assert (fgeb (snd b) (snd a) = true) by (eapply fgeb_trans; eassumption).
    assert (fgeb (snd c) (snd b) = true) by (eapply fgeb_trans; eassumption).
    eapply tie_trans; eauto.
Qed.

(** Any two pairs are ranked one way or the other, also when a score does
    not compare. *)
#[local] Instance ranked_total : Total (ranked tie).
Proof.
  intros a b. unfold ranked, ranks_before.
  destruct (fgeb (snd a) (snd b)) eqn:Hab, (fgeb (snd b) (snd a)) eqn:Hba;
    cbn [andb]; auto.
Qed.

Lemma exact_search_contract : search_contract (exact_search tie).
Proof.
  intros ix q k Hq Hk Hord.
  set (sorted := merge_sort (ranked tie) (scored ix q)).
  assert (Hperm : sorted ≡ₚ scored ix q) by apply merge_sort_Permutation.
  assert (Hord' : Forall ordered_score sorted) by (rewrite Hperm; exact Hord).
  assert (Hsorted : StronglySorted (ranked tie) sorted).
  { apply (Sorted_StronglySorted_on ordered_score);
      [apply ranked_trans_on|exact Hord'|].
    apply Sorted_merge_sort. apply _. }
  assert (Hin : forall h, h ∈ sorted -> ordered_score h)
    by (apply Forall_forall, Hord').
  exists (take (Z.to_nat k) sorted). cbn zeta.
  split.
  { unfold exact_search. rewrite Hq, Z.eqb_refl.
    destruct (Z.ltb_spec 0 k) as [_|]; [|lia]. reflexivity. }
  split; [rewrite length_take; lia|].
  split.
  { apply (sublist_NoDup _ sorted); [|apply sublist_take].
    rewrite Hperm. apply scored_NoDup. }
  split.
  { intros h Hh. rewrite <- Hperm.
    apply elem_of_take in Hh as (i & Hh & _).
    eapply list_elem_of_lookup_2, Hh. }
  split.
  { apply StronglySorted_take.
    apply (StronglySorted_impl_on ordered_score (ranked tie));
      [|exact Hord'|exact Hsorted].
    intros x y Hx Hy Hxy. apply ranked_spec in Hxy; tauto. }
  intros h Hh. rewrite <- Hperm in Hh.
  assert (Hh_ord : ordered_score h) by (apply Hin, Hh).
  rewrite <- (take_drop (Z.to_nat k) sorted) in Hh, Hsorted.
  apply elem_of_app in Hh as [Hh|Hh]; [left; exact Hh|].
  right. right. split.
  - apply length_take_le.
    destruct (Nat.le_gt_cases (Z.to_nat k) (length sorted)) as [Hle|Hgt];
      [exact Hle|].
    rewrite drop_ge in Hh by lia. inversion Hh.
  - intros h' Hh'.
    assert (Hh'_ord : ordered_score h').
    { apply Hin. apply elem_of_take in Hh' as (i & Hh' & _).
      eapply list_elem_of_lookup_2, Hh'. }
    apply StronglySorted_app in Hsorted as (Hcross & _ & _).
    specialize (Hcross h' h Hh' Hh). apply ranked_spec in Hcross; tauto.
Qed.

End ExactSearch.

End SearchFacts.

Lemma Z_scalar_order : @ScalarOrder Z Z_scalar.
Proof.
  split; cbn.
  - intros x y _ _. rewrite !Z.leb_le. lia.
  - intros x y z. rewrite !Z.leb_le. lia.
Qed.

(** *** The order of floating-point scores *)

Ltac sf_compare :=
  repeat match goal with
  | H : context [(?a ?= ?b)%Z] |- _ => destruct (Z.compare_spec a b)
  | |- context [(?a ?= ?b)%Z] => destruct (Z.compare_spec a b)
  | H : context [Pos.compare_cont Eq ?a ?b] |- _ =>
      change (Pos.compare_cont Eq a b) with (Pos.compare a b) in H;
      destruct (Pos.compare_spec a b)
  | |- context [Pos.compare_cont Eq ?a ?b] =>
      change (Pos.compare_cont Eq a b) with (Pos.compare a b);
      destruct (Pos.compare_spec a b)
  end.

Lemma SFleb_trans (x y z : spec_float) :
  SFleb x y = true -> SFleb y z = true -> SFleb x z = true.
Proof.
  unfold SFleb, SFcompare.
  destruct x as [[]|[]| |[] mx ex], y as [[]|[]| |[] my ey],
    z as [[]|[]| |[] mz ez]; try (intros; reflexivity || discriminate);
    intros Hxy Hyz; sf_compare; subst; cbn in *;
    try reflexivity; try discriminate; try lia.
Qed.

Lemma SFleb_total (x y : spec_float) :
  SFleb x x = true -> SFleb y y = true ->
  SFleb x y = true \/ SFleb y x = true.
Proof.
  unfold SFleb, SFcompare.
  destruct x as [[]|[]| |[] mx ex], y as [[]|[]| |[] my ey];
    try (intros; (left; reflexivity) || (right; reflexivity) || discriminate);
    intros _ _; sf_compare; subst; cbn;
    try (left; reflexivity); try (right; reflexivity); try lia.
Qed.

(** The comparison of floating-point numbers is transitive, NaN included,
    and total on the numbers that are not NaN. *)
Lemma float_scalar_order : @ScalarOrder float float_scalar.
Proof.
  split; cbn [fgeb float_scalar].
  - intros x y. rewrite !leb_spec. intros Hx Hy.
    destruct (SFleb_total (Prim2SF x) (Prim2SF y) Hx Hy); auto.
  - intros x y z. rewrite !leb_spec. intros Hxy Hyz.
    eapply SFleb_trans; eassumption.
Qed.

(** C2 (as amended).  Let the library search keep its contract, [>=] be
    transitive and total on the scores that are not NaN, the query have the
    dimension of the index and no NaN among its scores, [k >= 1], and the
    threshold lie above the score reported for a vacant place.  Then
    [search] returns at most [k] hits; the hits are the places of the
    library's answer at or above the threshold, in the order of that answer,
    so hits of equal score come in the order the library returned them and
    [search] adds no ordering of its own; each has a score [>=] the
    threshold; the hits are in descending order of score; they are distinct
    stored positions with their inner products against the query; a
    qualifying entry is left out only when [k] hits are returned and none of
    them scores less; when at most [k] entries qualify, the hits are exactly
    the qualifying entries; and the result depends on nothing but the stored
    vectors, the threshold, the query and [k], so repeating the query
    repeats the result. *)
Theorem search_top_k (F : Type) (SF : Scalar F) (SO : ScalarOrder F)
    (index_search : IndexFlatIP F -> list F -> Z -> result (list F * list Z))
    (self : FAISSIndex F) (q : list F) (k : Z) :
  search_contract index_search ->
  len q = d (index self) ->
  1 <= k ->
  Forall ordered_score (scored (index self) q) ->
  fgeb flowest (similarity_threshold self) = false ->
  let thr := similarity_threshold self in
  let qualifying := filter (qualifies thr) (scored (index self) q) in
  exists hits,
    search index_search self q k = Ok hits
    /\ (exists distances indices,
          index_search (index self) q k = Ok (distances, indices)
          /\ hits = filter (qualifies thr) (zip indices distances))
    /\ len hits <= k
    /\ Forall (fun h => fgeb (snd h) thr = true) hits
    /\ StronglySorted score_order hits
    /\ NoDup hits
    /\ (forall h, h ∈ hits -> h ∈ qualifying)
    /\ (forall h, h ∈ qualifying ->
          h ∈ hits
          \/ (len hits = k /\ forall h', h' ∈ hits -> score_order h' h))
    /\ (len qualifying <= k -> hits ≡ₚ qualifying)
    /\ (forall self2 : FAISSIndex F,
          index self2 = index self ->
          similarity_threshold self2 = thr ->
          search index_search self2 q k = Ok hits).
Proof.
  intros Hlib Hq Hk Hord Hlow thr qualifying.
  destruct (search_eq index_search Hlib self q k Hq Hk Hord Hlow)
    as (found & Hrun & Hlen & Hnodup & Hstored & Hsorted & Htop).
  fold thr in Hrun.
  set (hits := filter (qualifies thr) found) in *.
  assert (Hsub : forall h, h ∈ hits -> h ∈ qualifying).
  { intros h Hh. apply list_elem_of_filter in Hh as [HP Hh].
    apply list_elem_of_filter. auto. }
  assert (Hhits_nodup : NoDup hits) by (apply NoDup_filter, Hnodup).
  assert (Hlen_hits : (length hits <= Z.to_nat k)%nat).
  { etransitivity; [apply length_filter|exact Hlen]. }
  assert (Hout : forall h, h ∈ qualifying ->
            h ∈ hits
            \/ (len hits = k /\ forall h', h' ∈ hits -> score_order h' h)).
  { intros h Hh. apply list_elem_of_filter in Hh as [HP Hh].
    destruct (Htop h Hh) as [Hin|[Hbelow|[Hfull Hall]]].
    - left. apply list_elem_of_filter. auto.
    - exfalso. unfold qualifies in HP.
      pose proof (fgeb_trans _ _ _ Hbelow HP) as Hcontra.
      unfold thr in Hcontra. congruence.
    - right.
      assert (Hsame : hits = found).
      { apply filter_all, Forall_forall. intros h' Hh'.
        eapply qualifies_upward; [apply Hall, Hh'|exact HP]. }
      rewrite Hsame. split; [unfold len; lia|exact Hall]. }
  exists hits. split; [exact Hrun|].
  split; [apply (search_library_order index_search self q k), Hrun|].
  split; [unfold len; lia|].
  split.
  { apply Forall_forall. intros h Hh.
    apply list_elem_of_filter in Hh as [Hh _]. exact Hh. }
  split; [apply StronglySorted_filter, Hsorted|].
  split; [exact Hhits_nodup|].
  split; [exact Hsub|].
  split; [exact Hout|].
  split.
  { intros Hfew.
    assert (Hqual_nodup : NoDup qualifying)
      by apply NoDup_filter, scored_NoDup.
    destruct (decide (length hits = Z.to_nat k)) as [Hfull|Hnot].
    - apply submseteq_length_Permutation.
      + apply NoDup_submseteq; assumption.
      + unfold len in Hfew. lia.
    - apply NoDup_Permutation; [assumption..|].
      intros h. split; [apply Hsub|]. intros Hh.
      destruct (Hout h Hh) as [Hin|[Hfull _]]; [exact Hin|].
      unfold len in Hfull. lia. }
  intros self2 Hix Hthr. rewrite <- Hrun. unfold search.
  rewrite Hix, Hthr. reflexivity.
Qed.

(** A run on floating-point scores: the two stored unit vectors score 0.75
    and 1 against the query, and both reach the threshold 0.5. *)
Lemma search_top_k_witness :
  exists hits,
    search (exact_search Z.leb) loaded_index [0.75%float; 1%float] 2
    = Ok hits
    /\ hits = [(1, 1%float); (0, 0.75%float)]
    /\ (exists distances indices,
          exact_search Z.leb (index loaded_index) [0.75%float; 1%float] 2
          = Ok (distances, indices)
          /\ hits = filter (qualifies 0.5%float) (zip indices distances))
    /\ len hits <= 2
    /\ Forall (fun h => fgeb (snd h) 0.5%float = true) hits
    /\ StronglySorted score_order hits.
Proof.
  destruct (search_top_k float float_scalar float_scalar_order
              (exact_search Z.leb) loaded_index [0.75%float; 1%float] 2)
    as (hits & Hrun & Hlib & Hlen & Hthr & Hsorted & _).
  - apply (@exact_search_contract float float_scalar float_scalar_order
             Z.leb).
    + intros i j. rewrite !Z.leb_le. lia.
    + intros i j l. rewrite !Z.leb_le. lia.
  - reflexivity.
  - lia.
  - vm_compute. repeat constructor.
  - reflexivity.
  - exists hits. split; [exact Hrun|]. split; [|auto].
    assert (Hval : search (exact_search Z.leb) loaded_index
                     [0.75%float; 1%float] 2
                   = Ok [(1, 1%float); (0, 0.75%float)])
      by (vm_compute; reflexivity).
    congruence.
Defined.

(** C2 fails as stated in its tie-break: [search] keeps the order in which
    the library returns equal scores.  With an exact search that keeps the
    contract and returns equal scores by descending position, the two equal
    vectors of [tied_index] come back as positions 1, 0, which is not the
    ascending order of positions. *)
Lemma search_ties_not_ascending :
  search_contract (@exact_search Z Z_scalar (fun i j => j <=? i))
  /\ @search Z Z_scalar (@exact_search Z Z_scalar (fun i j => j <=? i))
       tied_index [1; 0] 2
     = Ok [(1, 1); (0, 1)]
  /\ ~ StronglySorted (@score_then_position Z Z_scalar) [(1, 1); (0, 1)].
Proof.
  split; [|split].
  - apply (@exact_search_contract Z Z_scalar Z_scalar_order).
    + intros i j. rewrite !Z.leb_le. lia.
    + intros i j l. rewrite !Z.leb_le. lia.
  - vm_compute. reflexivity.
  - intros Hsorted. apply StronglySorted_cons in Hsorted as [Hhead _].
    apply Forall_cons in Hhead as [[_ Hpos] _].
    cbn in Hpos. specialize (Hpos eq_refl). lia.
Qed.

(** Concrete runs.  With two stored vectors and [k = 3] the library fills
    the third place with position [-1]; [search] drops it, and the stored
    vector below the threshold with it. *)
Example exact_search_vacant_place :
  exact_search Z.leb (index loaded_index) [1%float; 0%float] 3
  = Ok ([1%float; 0%float; (-0x1.fffffep127)%float], [0; 1; -1]).
Proof. vm_compute. reflexivity. Qed.

Example search_drops_vacant_place :
  search (exact_search Z.leb) loaded_index [1%float; 0%float] 3
  = Ok [(0, 1%float)].
Proof. vm_compute. reflexivity. Qed.

(** With a threshold at the vacant score the vacant places pass the
    comparison and come back as hits. *)
Example search_keeps_vacant_place :
  search (exact_search Z.leb)
    {| embed_dim := 2; index_path := "ix.faiss"; meta_path := "meta.json";
       index := {| d := 2; xb := [[1; 0]] |}; metadata := [record_a];
       similarity_threshold := - 2 ^ 127 |}
    [1; 0] 2
  = Ok [(0, 1); (-1, - 2 ^ 127)].
Proof. vm_compute. reflexivity. Qed.

Example search_rejects_k_zero :
  search (exact_search Z.leb) int_index [2; 1] 0 = Raise AssertionError.
Proof. reflexivity. Qed.

(** ** [generate_excerpts] *)

Section FirstOccurrencesFacts.

Context {A K : Type} `{EqDecision K} (key : A -> K).

Lemma first_occurrences_after_nil (earlier : list A) :
  first_occurrences_after key earlier [] = [].
Proof. reflexivity. Qed.

(** The rank-by-rank definition unfolds along the list: the head is kept
    unless its key was seen earlier, and it counts as seen for the tail. *)
Lemma first_occurrences_after_cons (earlier : list A) (x : A) (l : list A) :
  first_occurrences_after key earlier (x :: l)
  = if decide (key x ∈ key <$> earlier)
    then first_occurrences_after key (earlier ++ [x]) l
    else x :: first_occurrences_after key (earlier ++ [x]) l.
Proof.
  unfold first_occurrences_after. rewrite imap_cons. cbn [mjoin list_join].
  cbn [take]. rewrite app_nil_r.
  assert (Htail :
    imap ((fun i y => if decide (key y ∈ key <$> (earlier ++ take i (x :: l)))
                      then [] else [y]) ∘ S) l
    = imap (fun i y => if decide (key y ∈ key <$> ((earlier ++ [x]) ++ take i l))
                       then [] else [y]) l).
  { apply imap_ext. intros i y _. cbn [compose take].
    rewrite <- app_assoc. reflexivity. }
  rewrite Htail. destruct (decide (key x ∈ key <$> earlier)); reflexivity.
Qed.

Lemma first_occurrences_after_sublist (earlier l : list A) :
  sublist (first_occurrences_after key earlier l) l.
Proof.
  revert earlier. induction l as [|x l IH]; intros earlier.
  - constructor.
  - rewrite first_occurrences_after_cons.
    destruct (decide (key x ∈ key <$> earlier)).
    + apply sublist_cons, IH.
    + apply sublist_skip, IH.
Qed.

Lemma first_occurrences_after_fresh (earlier l : list A) (y : A) :
  y ∈ first_occurrences_after key earlier l -> key y ∉ key <$> earlier.
Proof.
  revert earlier. induction l as [|x l IH]; intros earlier Hy.
  - rewrite first_occurrences_after_nil in Hy. inversion Hy.
  - rewrite first_occurrences_after_cons in Hy.
    assert (Hrest : y ∈ first_occurrences_after key (earlier ++ [x]) l ->
                    key y ∉ key <$> earlier).
    { intros Hin Hseen. apply IH in Hin. apply Hin.
      rewrite fmap_app. apply elem_of_app. left. exact Hseen. }
    destruct (decide (key x ∈ key <$> earlier)) as [Hx|Hx]; [auto|].
    apply elem_of_cons in Hy as [->|Hy]; auto.
Qed.

Lemma first_occurrences_after_NoDup (earlier l : list A) :
  NoDup (key <$> first_occurrences_after key earlier l).
Proof.
  revert earlier. induction l as [|x l IH]; intros earlier.
  - constructor.
  - rewrite first_occurrences_after_cons.
    destruct (decide (key x ∈ key <$> earlier)); [apply IH|].
    rewrite fmap_cons. constructor; [|apply IH].
    intros Hdup. apply list_elem_of_fmap in Hdup as (y & Hkey & Hy).
    apply first_occurrences_after_fresh in Hy. apply Hy.
    rewrite <- Hkey, fmap_app. apply elem_of_app. right. cbn. left.
Qed.

Lemma first_occurrences_after_covers (earlier l : list A) (y : A) :
  y ∈ l ->
  key y ∈ key <$> earlier
  \/ key y ∈ key <$> first_occurrences_after key earlier l.
Proof.
  revert earlier. induction l as [|x l IH]; intros earlier Hy.
  - inversion Hy.
  - rewrite first_occurrences_after_cons.
    apply elem_of_cons in Hy as [->|Hy].
    + destruct (decide (key x ∈ key <$> earlier)); [tauto|].
      right. rewrite fmap_cons. left.
    + destruct (IH (earlier ++ [x]) Hy) as [Hseen|Hkept].
      * rewrite fmap_app in Hseen. apply elem_of_app in Hseen as [Hseen|Hx].
        { tauto. }
        cbn in Hx. apply list_elem_of_singleton in Hx. rewrite Hx.
        destruct (decide (key x ∈ key <$> earlier)); [tauto|].
        right. rewrite fmap_cons. left.
      * right. destruct (decide (key x ∈ key <$> earlier)); [exact Hkept|].
        rewrite fmap_cons. right. exact Hkept.
Qed.

End FirstOccurrencesFacts.

Section ExcerptFacts.

Context {F : Type} `{Scalar F}.

(** The loop invariant: [seen_texts] holds the keys of the records met so
    far, and the excerpts added are those of the first occurrences. *)
Lemma excerpts_loop_spec (records : list Dict) (relevant : list (Z * F))
    (ms earlier : list Dict) (acc : list (value * Dict))
    (seen : gset (value * value)) :
  Forall2 (fun hit m => getitem records (fst hit) = Ok m) relevant ms ->
  Forall complete ms ->
  (forall s c, (s, c) ∈ seen <-> (Some s, Some c) ∈ record_key <$> earlier) ->
  exists excerpts,
    excerpts_loop records relevant acc seen = Ok (acc ++ excerpts)
    /\ Forall2 excerpt_of excerpts
         (first_occurrences_after record_key earlier ms).
Proof.
  intros Hres. revert earlier acc seen.
  induction Hres as [|[idx score] m relevant ms Hm Hres IH];
    intros earlier acc seen Hcomplete Hseen.
  - exists []. rewrite app_nil_r. split; [reflexivity|constructor].
  - apply Forall_cons in Hcomplete
      as [([s Hs] & [c Hc] & [t Ht]) Hcomplete].
    cbn [fst] in Hm. cbn [excerpts_loop]. rewrite Hm.
    cbn [mbind result_bind Py.bind]. unfold dict_get.
    rewrite Hs. cbn [mbind result_bind Py.bind].
    rewrite Hc. cbn [mbind result_bind Py.bind].
    rewrite first_occurrences_after_cons.
    assert (Hkey : record_key m = (Some s, Some c)).
    { unfold record_key. rewrite Hs, Hc. reflexivity. }
    assert (Hnext : forall seen' : gset (value * value),
              (forall s' c', (s', c') ∈ seen' <->
                             (s', c') = (s, c) \/ (s', c') ∈ seen) ->
              forall s' c', (s', c') ∈ seen' <->
                (Some s', Some c') ∈ record_key <$> (earlier ++ [m])).
    { intros seen' Hseen' s' c'. rewrite Hseen', fmap_app, elem_of_app.
      cbn. rewrite list_elem_of_singleton, Hkey, Hseen.
      split.
      - intros [Heq|Hin]; [right; congruence|left; exact Hin].
      - intros [Hin|Heq]; [right; exact Hin|left; congruence]. }
    destruct (decide ((s, c) ∈ seen)) as [Hin|Hout].
    + rewrite decide_True by (rewrite Hkey; apply Hseen, Hin).
      apply IH; [exact Hcomplete|]. apply Hnext.
      intros s' c'. split; [tauto|]. intros [Heq|Hin']; [|exact Hin'].
      rewrite Heq. exact Hin.
    + rewrite decide_False by (rewrite Hkey, <- Hseen; exact Hout).
      rewrite Ht. cbn [mbind result_bind Py.bind].
      destruct (IH (earlier ++ [m]) (acc ++ [(t, m)]) ({[(s, c)]} ∪ seen)
                  Hcomplete) as (excerpts & Hrun & Hex).
      { apply Hnext. intros s' c'.
        rewrite elem_of_union, elem_of_singleton. tauto. }
      exists ((t, m) :: excerpts). split.
      * rewrite Hrun, <- app_assoc. reflexivity.
      * constructor; [|exact Hex]. split; [reflexivity|exact Ht].
Qed.

End ExcerptFacts.

(** C7.  Let every hit resolve to a metadata record, and let every such
    record have the keys [source], [chunk_id] and [text].  Then
    [generate_excerpts] returns one excerpt, the record's text with the
    record, for each first occurrence of a key [(source, chunk_id)] among
    the resolved records, in rank order: the kept records are a subsequence
    of the resolved ones, no two of them share a key, every resolved key is
    represented, and the record kept for a key is the one at its first
    rank.  Two hits with the same key yield the single excerpt of the first
    hit. *)
Theorem generate_excerpts_dedup (F : Type)
    (self : FAISSIndex F) (relevant : list (Z * F)) (ms : list Dict) :
  Forall2 (fun hit m => getitem (metadata self) (fst hit) = Ok m)
    relevant ms ->
  Forall complete ms ->
  let kept := first_occurrences record_key ms in
  exists excerpts,
    generate_excerpts self relevant = Ok excerpts
    /\ Forall2 excerpt_of excerpts kept
    /\ sublist kept ms
    /\ NoDup (record_key <$> kept)
    /\ (forall m, m ∈ ms -> record_key m ∈ record_key <$> kept)
    /\ (forall m1 m2, ms = [m1; m2] -> record_key m1 = record_key m2 ->
          kept = [m1] /\ exists text, excerpts = [(text, m1)]).
Proof.
  intros Hres Hcomplete kept. unfold generate_excerpts.
  destruct (excerpts_loop_spec (metadata self) relevant ms [] [] ∅
              Hres Hcomplete) as (excerpts & Hrun & Hex).
  { intros s c. cbn. rewrite elem_of_empty, elem_of_nil. tauto. }
  cbn [app] in Hrun. fold (first_occurrences record_key ms) in Hex.
  fold kept in Hex.
  assert (Htwo : forall m1 m2, ms = [m1; m2] ->
                   record_key m1 = record_key m2 -> kept = [m1]).
  { intros m1 m2 -> Hkey. subst kept.
    unfold first_occurrences.
    rewrite first_occurrences_after_cons, decide_False
      by (cbn; apply not_elem_of_nil).
    rewrite first_occurrences_after_cons, decide_True
      by (cbn; rewrite Hkey; left).
    reflexivity. }
  exists excerpts. split; [exact Hrun|]. split; [exact Hex|].
  split; [apply first_occurrences_after_sublist|].
  split; [apply first_occurrences_after_NoDup|].
  split.
  - intros m Hm.
    destruct (first_occurrences_after_covers record_key [] ms m Hm)
      as [Hnil|Hkept]; [|exact Hkept].
    cbn in Hnil. inversion Hnil.
  - intros m1 m2 Hms Hkey. specialize (Htwo m1 m2 Hms Hkey).
    split; [exact Htwo|]. rewrite Htwo in Hex.
    apply Forall2_cons_inv_r in Hex as ([text m] & rest & [Hm _] & Hnil & ->).
    apply Forall2_nil_inv_r in Hnil as ->. cbn in Hm. subst m. eauto.
Qed.

Lemma generate_excerpts_dedup_witness :
  exists excerpts,
    generate_excerpts int_index [(0, 3); (2, 2)] = Ok excerpts
    /\ first_occurrences record_key [record_a; record_a'] = [record_a]
    /\ excerpts = [(VStr "alpha", record_a)].
Proof.
  destruct (generate_excerpts_dedup Z int_index [(0, 3); (2, 2)]
              [record_a; record_a'])
    as (excerpts & Hrun & _ & _ & _ & _ & Htwo).
  - repeat constructor.
  - repeat constructor; vm_compute; eauto.
  - exists excerpts. split; [exact Hrun|].
    destruct (Htwo record_a record_a' eq_refl eq_refl) as [Hkept _].
    split; [exact Hkept|].
    assert (Hval : generate_excerpts int_index [(0, 3); (2, 2)]
                   = Ok [(VStr "alpha", record_a)])
      by (vm_compute; reflexivity).
    rewrite Hval in Hrun. injection Hrun as <-. reflexivity.
Defined.

(* ================================================================== *)
(** * Further properties of the ingestion and query code *)

(** ** The windows of the chunkers *)

Section SlideFacts.

Context {A : Type}.

Implicit Types (xs : list A) (ws : list (list A)).

(** Inside the list and with a positive size, the slice of the loop is
    [size] elements from [start], or as many as are left. *)
Lemma slice_from_start xs (a : nat) (size : Z) :
  (a < length xs)%nat ->
  0 < size ->
  slice xs (Z.of_nat a) (Z.min (Z.of_nat a + size) (len xs))
  = take (Z.to_nat size) (drop a xs).
Proof.
  intros Ha Hsize. unfold slice, clip, len.
  destruct (Z.ltb_spec (Z.of_nat a) 0) as [|_]; [lia|].
  destruct (Z.ltb_spec (Z.min (Z.of_nat a + size) (Z.of_nat (length xs))) 0)
    as [|_]; [lia|].
  replace (Z.to_nat (Z.min (Z.of_nat a) (Z.of_nat (length xs)))) with a
    by lia.
  destruct (Z.le_gt_cases (Z.of_nat a + size) (Z.of_nat (length xs)))
    as [Hfit|Hcut].
  - f_equal. lia.
  - rewrite !take_ge; [reflexivity| |]; rewrite length_drop; lia.
Qed.

Lemma slide_from xs (size overlap : Z) (fuel j : nat) ws0 :
  0 < size ->
  overlap < size ->
  let s := Z.to_nat (size - overlap) in
  let m := Z.to_nat size in
  (length xs - j * s < fuel)%nat ->
  exists ws,
    slide fuel xs size overlap (Z.of_nat (j * s)) ws0 = Some (ws0 ++ ws)
    /\ (forall i,
          ws !! i = if ((j + i) * s <? length xs)%nat
                    then Some (take m (drop ((j + i) * s) xs)) else None)
    /\ (0 <= overlap -> concat (take s <$> ws) = drop (j * s) xs).
Proof.
  intros Hsize Hstride s m. revert j ws0.
  induction fuel as [|fuel IH]; intros j ws0 Hfuel; [lia|].
  cbn [slide].
  destruct (Z.ltb_spec (Z.of_nat (j * s)) (len xs)) as [Hin|Hout];
    unfold len in *.
  - fold (len xs). rewrite slice_from_start by lia. fold m.
    replace (Z.of_nat (j * s) + (size - overlap))
      with (Z.of_nat (S j * s)) by (cbn [Nat.mul]; lia).
    destruct (IH (S j) (ws0 ++ [take m (drop (j * s) xs)]))
      as (ws & Hrun & Hlookup & Hcover).
    { cbn [Nat.mul]. lia. }
    exists (take m (drop (j * s) xs) :: ws).
    split; [rewrite Hrun, <- app_assoc; reflexivity|]. split.
    + intros [|i].
      * rewrite Nat.add_0_r. cbn [lookup list_lookup].
        destruct (Nat.ltb_spec (j * s) (length xs)); [reflexivity|lia].
      * cbn [lookup list_lookup]. rewrite Hlookup.
        replace (S j + i)%nat with (j + S i)%nat by lia. reflexivity.
    + intros Hover. cbn [fmap list_fmap concat]. rewrite (Hcover Hover).
      rewrite take_take. replace (s `min` m)%nat with s by lia.
      replace (S j * s)%nat with (j * s + s)%nat by (cbn [Nat.mul]; lia).
      rewrite <- drop_drop. apply take_drop.
  - exists []. split; [rewrite app_nil_r; reflexivity|]. split.
    + intros i. rewrite lookup_nil.
      destruct (Nat.ltb_spec ((j + i) * s) (length xs)) as [Hlt|];
        [|reflexivity].
      assert (j * s <= (j + i) * s)%nat by (apply Nat.mul_le_mono_r; lia).
      lia.
    + intros _. cbn. rewrite drop_ge by lia. reflexivity.
Qed.

(** The windows in closed form. *)
Lemma slide_closed xs (size overlap : Z) :
  0 < size ->
  overlap < size ->
  let s := Z.to_nat (size - overlap) in
  let m := Z.to_nat size in
  exists ws,
    (forall fuel, (length xs < fuel)%nat ->
       slide fuel xs size overlap 0 [] = Some ws)
    /\ (forall i,
          ws !! i = if (i * s <? length xs)%nat
                    then Some (take m (drop (i * s) xs)) else None)
    /\ Forall (fun w => (0 < length w <= m)%nat) ws
    /\ (length xs <= length ws * s)%nat
    /\ (forall i, (i < length ws)%nat -> (i * s < length xs)%nat)
    /\ (0 <= overlap -> concat (take s <$> ws) = xs).
Proof.
  intros Hsize Hstride s m.
  destruct (slide_from xs size overlap (S (length xs)) 0 [] Hsize Hstride)
    as (ws & Hrun & Hlookup & Hcover); [cbn; lia|].
  cbn [Nat.mul app Nat.add] in Hlookup, Hcover. fold s m in Hlookup, Hcover.
  assert (Hmono : forall fuel, (length xs < fuel)%nat ->
            slide fuel xs size overlap 0 [] = Some ws).
  { intros fuel Hfuel.
    destruct (slide_from xs size overlap fuel 0 [] Hsize Hstride)
      as (ws' & Hrun' & Hlookup' & _); [cbn; lia|].
    cbn [Nat.mul app Nat.add] in Hlookup'. fold s m in Hlookup'.
    change (slide fuel xs size overlap 0 [] = Some ws') in Hrun'.
    rewrite Hrun'. f_equal. apply list_eq. intros i.
    rewrite Hlookup, Hlookup'. reflexivity. }
  assert (Hin : forall i, (i < length ws)%nat -> (i * s < length xs)%nat).
  { intros i Hi. apply lookup_lt_is_Some_2 in Hi as [w Hw].
    rewrite Hlookup in Hw.
    destruct (Nat.ltb_spec (i * s) (length xs)); [assumption|discriminate]. }
  exists ws. split; [exact Hmono|]. split; [exact Hlookup|]. split.
  { apply Forall_lookup. intros i w Hw.
    assert (Hi : (i * s < length xs)%nat)
      by (apply Hin; eapply lookup_lt_Some, Hw).
    rewrite Hlookup in Hw.
    destruct (Nat.ltb_spec (i * s) (length xs)); [|lia].
    injection Hw as <-. rewrite length_take, length_drop. lia. }
  split.
  { pose proof (Hlookup (length ws)) as Hend.
    rewrite lookup_ge_None_2 in Hend by lia.
    destruct (Nat.ltb_spec (length ws * s) (length xs));
      [discriminate|lia]. }
  split; [exact Hin|].
  intros Hover. rewrite (Hcover Hover). reflexivity.
Qed.

End SlideFacts.

Lemma window_loop_slide (fuel : nat) (tokens : list Z)
    (max_tokens overlap start : Z) (ws : list (list Z)) :
  window_loop fuel tokens max_tokens overlap start ws
  = slide fuel tokens max_tokens overlap start ws.
Proof.
  revert start ws. induction fuel as [|fuel IH]; intros start ws;
    [reflexivity|].
  cbn [window_loop slide]. destruct (start <? len tokens); [|reflexivity].
  apply IH.
Qed.

Lemma chunk_by_tokens_slide (ENC : Encoding) (fuel : nat) (text : string)
    (max_tokens overlap : Z) :
  chunk_by_tokens ENC fuel text max_tokens overlap
  = option_map (map (decode ENC))
      (slide fuel (encode ENC (replace_newlines text)) max_tokens overlap
         0 []).
Proof.
  unfold chunk_by_tokens.
  rewrite (chunk_loop_windows ENC fuel _ max_tokens overlap 0 []).
  rewrite window_loop_slide. reflexivity.
Qed.

Lemma chunk_text_loop_slide (fuel : nat) (words : list string)
    (size overlap start : Z) (ws : list (list string)) :
  chunk_text_loop fuel words size overlap start (map join_space ws)
  = option_map (map join_space) (slide fuel words size overlap start ws).
Proof.
  revert start ws. induction fuel as [|fuel IH]; intros start ws;
    [reflexivity|].
  cbn [chunk_text_loop slide]. destruct (start <? len words); [|reflexivity].
  rewrite <- IH. f_equal. rewrite map_app. reflexivity.
Qed.

(** X1.  With [0 < max_tokens] and [overlap < max_tokens],
    [chunk_by_tokens] returns, for every budget above the number of tokens,
    the decodings of the windows of [max_tokens] tokens that start every
    [max_tokens - overlap] tokens: window [i] is
    [tokens[i * stride : i * stride + max_tokens]] for each [i] with
    [i * stride < len(tokens)] and there is no further window.  Every window
    has between 1 and [max_tokens] tokens, and the number of windows is the
    least [c] with [c * stride >= len(tokens)]. *)
Theorem chunk_by_tokens_windows (ENC : Encoding) (text : string)
    (max_tokens overlap : Z) :
  0 < max_tokens ->
  overlap < max_tokens ->
  let tokens := encode ENC (replace_newlines text) in
  let s := Z.to_nat (max_tokens - overlap) in
  let m := Z.to_nat max_tokens in
  exists ws : list (list Z),
    (forall fuel, (length tokens < fuel)%nat ->
       chunk_by_tokens ENC fuel text max_tokens overlap
       = Some (map (decode ENC) ws))
    /\ (forall i,
          ws !! i = if (i * s <? length tokens)%nat
                    then Some (take m (drop (i * s) tokens)) else None)
    /\ Forall (fun w => (0 < length w <= m)%nat) ws
    /\ (length tokens <= length ws * s)%nat
    /\ (forall i, (i < length ws)%nat -> (i * s < length tokens)%nat).
Proof.
  intros Hsize Hstride tokens s m.
  destruct (slide_closed tokens max_tokens overlap Hsize Hstride)
    as (ws & Hrun & Hlookup & Hlen & Hcount & Hin & _).
  exists ws. split; [|auto].
  intros fuel Hfuel. rewrite chunk_by_tokens_slide. fold tokens.
  rewrite (Hrun fuel Hfuel). reflexivity.
Qed.

Lemma chunk_by_tokens_windows_witness :
  exists ws : list (list Z),
    chunk_by_tokens char_encoding 6 "abcde" 3 1 = Some (map (decode char_encoding) ws)
    /\ ws !! 1%nat = Some [99; 100; 101]
    /\ length ws = 3%nat.
Proof.
  destruct (chunk_by_tokens_windows char_encoding "abcde" 3 1)
    as (ws & Hrun & Hlookup & _ & Hcount & Hin); [lia|lia|].
  exists ws. split; [apply Hrun; cbn; lia|]. split; [apply Hlookup|].
  cbn in Hcount, Hin.
  destruct ws as [|w0 [|w1 [|w2 [|w3 ws]]]]; cbn in Hcount; try lia.
  - reflexivity.
  - specialize (Hin 3%nat). cbn in Hin. lia.
Defined.

(** X2.  With [0 <= overlap < max_tokens] no token is lost and none is
    reordered: the first [max_tokens - overlap] tokens of each window, taken
    in order, are the token list of the text. *)
Theorem chunk_by_tokens_covers (ENC : Encoding) (text : string)
    (max_tokens overlap : Z) :
  0 <= overlap ->
  overlap < max_tokens ->
  let tokens := encode ENC (replace_newlines text) in
  let s := Z.to_nat (max_tokens - overlap) in
  exists ws : list (list Z),
    (forall fuel, (length tokens < fuel)%nat ->
       chunk_by_tokens ENC fuel text max_tokens overlap
       = Some (map (decode ENC) ws))
    /\ concat (take s <$> ws) = tokens.
Proof.
  intros Hover Hstride tokens s.
  destruct (slide_closed tokens max_tokens overlap ltac:(lia) Hstride)
    as (ws & Hrun & _ & _ & _ & _ & Hcover).
  exists ws. split; [|exact (Hcover Hover)].
  intros fuel Hfuel. rewrite chunk_by_tokens_slide. fold tokens.
  rewrite (Hrun fuel Hfuel). reflexivity.
Qed.

Lemma chunk_by_tokens_covers_witness :
  exists ws : list (list Z),
    chunk_by_tokens char_encoding 6 "abcde" 3 1
    = Some (map (decode char_encoding) ws)
    /\ concat (take 2 <$> ws) = [97; 98; 99; 100; 101].
Proof.
  destruct (chunk_by_tokens_covers char_encoding "abcde" 3 1)
    as (ws & Hrun & Hcover); [lia|lia|].
  exists ws. split; [apply Hrun; cbn; lia|exact Hcover].
Defined.

(** ** [chunk_text] *)

Lemma split_from_words (word : list ascii) (s : string) :
  no_space word ->
  Forall (fun w => w <> EmptyString
                   /\ no_space (list_ascii_of_string w))
         (split_from word s).
Proof.
  revert word. induction s as [|c s IH]; intros word Hword; cbn [split_from].
  - destruct word as [|c0 word]; [constructor|].
    constructor; [|constructor]. split.
    + intros Hempty. apply (f_equal list_ascii_of_string) in Hempty.
      rewrite list_ascii_of_string_of_list_ascii in Hempty.
      apply (f_equal (@length ascii)) in Hempty.
      rewrite length_rev in Hempty. discriminate.
    + rewrite list_ascii_of_string_of_list_ascii.
      apply List.Forall_rev, Hword.
  - destruct (is_space c) eqn:Hc.
    + destruct word as [|c0 word]; [apply IH; constructor|].
      constructor; [|apply IH; constructor]. split.
      * intros Hempty. apply (f_equal list_ascii_of_string) in Hempty.
        rewrite list_ascii_of_string_of_list_ascii in Hempty.
        apply (f_equal (@length ascii)) in Hempty.
        rewrite length_rev in Hempty. discriminate.
      * rewrite list_ascii_of_string_of_list_ascii.
        apply List.Forall_rev, Hword.
    + apply IH. constructor; assumption.
Qed.

Lemma split_from_blank (s : string) :
  Forall (fun c => is_space c = true) (list_ascii_of_string s) ->
  split_from [] s = [].
Proof.
  induction s as [|c s IH]; intros Hblank; [reflexivity|].
  cbn in Hblank. apply Forall_cons in Hblank as [Hc Hblank].
  cbn [split_from]. rewrite Hc. apply IH, Hblank.
Qed.

(** X3.  With [0 < size] and [overlap < size], [chunk_text] returns, for
    every budget above the number of words, one chunk per window of [size]
    words starting every [size - overlap] words: chunk [i] is the words
    [words[i * stride : i * stride + size]] joined by single spaces.  The
    words are the maximal runs without whitespace, so no chunk holds a
    newline or a tab, and a text of whitespace only has no chunk. *)
Theorem chunk_text_windows (text : string) (size overlap : Z) :
  0 < size ->
  overlap < size ->
  let words := split text in
  let s := Z.to_nat (size - overlap) in
  let m := Z.to_nat size in
  exists ws : list (list string),
    (forall fuel, (length words < fuel)%nat ->
       chunk_text fuel text size overlap = Some (map join_space ws))
    /\ (forall i,
          ws !! i = if (i * s <? length words)%nat
                    then Some (take m (drop (i * s) words)) else None)
    /\ Forall (fun w => w <> EmptyString
                        /\ no_space (list_ascii_of_string w)) words
    /\ (Forall (fun c => is_space c = true) (list_ascii_of_string text) ->
        ws = []).
Proof.
  intros Hsize Hstride words s m.
  destruct (slide_closed words size overlap Hsize Hstride)
    as (ws & Hrun & Hlookup & _ & _ & Hin & _).
  exists ws. split; [|split; [exact Hlookup|split]].
  - intros fuel Hfuel.
    pose proof (chunk_text_loop_slide fuel words size overlap 0 []) as Hloop.
    rewrite (Hrun fuel Hfuel) in Hloop. exact Hloop.
  - apply split_from_words. constructor.
  - intros Hblank. destruct ws as [|w ws]; [reflexivity|].
    specialize (Hin 0%nat ltac:(cbn; lia)).
    unfold words, split in Hin. rewrite split_from_blank in Hin by exact Hblank.
    cbn in Hin. lia.
Qed.

Lemma chunk_text_windows_witness :
  exists ws : list (list string),
    chunk_text 5 "a  bb
 c dd" 2 1 = Some (map join_space ws)
    /\ ws !! 1%nat = Some ["bb"; "c"].
Proof.
  destruct (chunk_text_windows "a  bb
 c dd" 2 1) as (ws & Hrun & Hlookup & _); [lia|lia|].
  exists ws. split; [apply Hrun; vm_compute; lia|apply Hlookup].
Defined.

(** ** [safe_embed]: when it returns *)

Lemma length_substring (n m : nat) (s : string) :
  String.length (substring n m s) = Nat.min m (String.length s - n).
Proof.
  revert n m. induction s as [|c s IH]; intros n m.
  - destruct n, m; reflexivity.
  - destruct n as [|n].
    + destruct m as [|m]; [reflexivity|]. cbn. rewrite IH.
      rewrite Nat.sub_0_r. reflexivity.
    + cbn. apply IH.
Qed.

Lemma length_prefix_to (s : string) :
  String.length (prefix_to s (slen s / 2)) = (String.length s / 2)%nat.
Proof.
  unfold prefix_to, slen. rewrite length_substring.
  rewrite <- (Nat2Z.inj_div _ 2), Nat2Z.id.
  pose proof (Nat.Div0.div_le_upper_bound (String.length s) 2
                (String.length s)) as Hle.
  lia.
Qed.

Lemma length_suffix_from (s : string) :
  String.length (suffix_from s (slen s / 2))
  = (String.length s - String.length s / 2)%nat.
Proof.
  unfold suffix_from, slen. rewrite length_substring.
  rewrite <- (Nat2Z.inj_div _ 2), Nat2Z.id. lia.
Qed.

Section SafeEmbedFacts.

Context {F : Type} `{Scalar F}.

Variable client : string -> result (list F).

(** X4.  If the provider never rejects a text of at most one character for
    its length, [safe_embed] returns (a vector or an exception) on every
    text, within a recursion depth of one more than the length of the
    text. *)
Theorem safe_embed_terminates :
  (forall t msg, (String.length t <= 1)%nat ->
     embed_text client t = Raise (BadRequestError msg) ->
     contains "maximum context length" msg = false) ->
  forall text fuel,
    (String.length text < fuel)%nat ->
    exists r, safe_embed client fuel text = Some r.
Proof.
  intros Hshort text fuel. revert text.
  induction fuel as [|fuel IH]; intros text Hfuel; [lia|].
  cbn [safe_embed].
  destruct (embed_text client text) as [v|e] eqn:Hembed; [eauto|].
  destruct e; eauto.
  destruct (contains "maximum context length" msg) eqn:Hmsg; [|eauto].
  assert (Hlong : (2 <= String.length text)%nat).
  { destruct (Nat.le_gt_cases (String.length text) 1) as [Hle|]; [|lia].
    rewrite (Hshort text msg Hle Hembed) in Hmsg. discriminate. }
  pose proof (Nat.div_lt (String.length text) 2 ltac:(lia) ltac:(lia)).
  assert (0 < String.length text / 2)%nat
    by (apply Nat.div_str_pos; lia).
  destruct (IH (prefix_to text (slen text / 2))) as [[l|e] ->];
    [rewrite length_prefix_to; lia| |eauto].
  destruct (IH (suffix_from text (slen text / 2))) as [[r|e] ->];
    [rewrite length_suffix_from; lia|eauto|eauto].
Qed.

(** X5.  If every vector the provider returns has dimension [n], so has
    every vector [safe_embed] returns: the average of the two halves keeps
    the dimension. *)
Theorem safe_embed_dimension (n : nat) :
  (forall t raw, client t = Ok raw -> length raw = n) ->
  forall fuel text v,
    safe_embed client fuel text = Some (Ok v) -> length v = n.
Proof.
  intros Hdim fuel. induction fuel as [|fuel IH]; intros text v Hrun;
    [discriminate|].
  cbn [safe_embed] in Hrun.
  destruct (embed_text client text) as [v0|e] eqn:Hembed.
  - injection Hrun as <-. unfold embed_text in Hembed.
    destruct (client (replace_newlines text)) as [raw|e] eqn:Hraw;
      [|discriminate].
    cbn in Hembed. injection Hembed as <-.
    rewrite np_div_length. eapply Hdim, Hraw.
  - destruct e; try discriminate.
    destruct (contains "maximum context length" msg); [|discriminate].
    destruct (safe_embed client fuel (prefix_to text (slen text / 2)))
      as [[l|e]|] eqn:Hl; try discriminate.
    destruct (safe_embed client fuel (suffix_from text (slen text / 2)))
      as [[r|e]|] eqn:Hr; try discriminate.
    apply IH in Hl, Hr. unfold np_add in Hrun.
    rewrite Hl, Hr, Nat.eqb_refl in Hrun. cbn in Hrun.
    injection Hrun as <-. rewrite np_div_length, length_zip_with. lia.
Qed.

(** X6.  [safe_embed] does not return on a text of at most one character
    that the provider rejects for its length: the empty text is split into
    itself twice, and a single character into the empty text, which embeds,
    and itself. *)
Theorem safe_embed_short_diverges (text msg : string) :
  (String.length text <= 1)%nat ->
  embed_text client text = Raise (BadRequestError msg) ->
  contains "maximum context length" msg = true ->
  text = EmptyString \/ (exists v, embed_text client EmptyString = Ok v) ->
  forall fuel, safe_embed client fuel text = None.
Proof.
  intros Hlen Hraise Hmsg Hempty fuel.
  induction fuel as [|fuel IH]; [reflexivity|].
  cbn [safe_embed]. rewrite Hraise, Hmsg.
  destruct text as [|c [|c' text]]; [| |cbn in Hlen; lia].
  - change (prefix_to "" (slen "" / 2)) with EmptyString.
    rewrite IH. reflexivity.
  - destruct Hempty as [Hempty|[v Hv]]; [discriminate|].
    change (prefix_to (String c "") (slen (String c "") / 2))
      with EmptyString.
    change (suffix_from (String c "") (slen (String c "") / 2))
      with (String c "").
    rewrite IH.
    destruct fuel as [|fuel]; [reflexivity|].
    cbn [safe_embed]. rewrite Hv. reflexivity.
Qed.

(** X7.  In the manual script [safe_embed] always returns and never
    raises: it is the normalized encoding when the model encodes the text,
    and [None] when the model raises; no text is ever split. *)
Theorem safe_embed_manual_total (fuel : nat) (text : string) :
  safe_embed_manual client (S fuel) text
  = Some (Ok match client (replace_newlines text) with
             | Ok raw => Some (np_div raw (norm raw))
             | Raise _ => None
             end).
Proof.
  rewrite safe_embed_manual_no_split. unfold embed_text_manual, embed_text.
  destruct (client (replace_newlines text)); reflexivity.
Qed.

End SafeEmbedFacts.

Lemma safe_embed_terminates_witness :
  exists r, safe_embed short_client 3 "ab" = Some r.
Proof.
  apply (safe_embed_terminates short_client); [|cbn; lia].
  intros t msg Hlen Hraise. unfold embed_text in Hraise.
  assert (Hsame : String.length (replace_newlines t) = String.length t).
  { clear. induction t as [|c t IH]; [reflexivity|]. cbn. rewrite IH.
    reflexivity. }
  unfold short_client, slen in Hraise. rewrite Hsame in Hraise.
  destruct (Z.ltb_spec 1 (Z.of_nat (String.length t))); [lia|].
  destruct (String.eqb (replace_newlines t) "a"); discriminate.
Defined.

Lemma safe_embed_dimension_witness :
  exists v, safe_embed short_client 2 "ab" = Some (Ok v) /\ length v = 2%nat.
Proof.
  eexists. split; [vm_compute; reflexivity|].
  apply (safe_embed_dimension short_client 2) with (fuel := 2%nat) (text := "ab").
  - intros t raw. unfold short_client.
    destruct (1 <? slen t); [discriminate|].
    destruct (String.eqb t "a"); intros [= <-]; reflexivity.
  - vm_compute. reflexivity.
Defined.

(** A provider that rejects every text for its length. *)
Lemma safe_embed_short_diverges_witness :
  safe_embed (F := float)
    (fun _ => Raise (BadRequestError "maximum context length")) 1000 ""
  = None.
Proof.
  apply (safe_embed_short_diverges _ "" "maximum context length").
  - cbn. lia.
  - reflexivity.
  - reflexivity.
  - left. reflexivity.
Defined.

(** ** [index_batch] *)

Section IngestionFacts.

Context {F : Type} `{Scalar F}.

Variable client : string -> result (list F).

Implicit Types (st : store F) (texts : list string) (metas : list Dict).

Lemma embed_each_length texts embs :
  embed_each client texts = Ok embs -> length embs = length texts.
Proof.
  revert embs. induction texts as [|t texts IH]; intros embs Hrun.
  - injection Hrun as <-. reflexivity.
  - cbn [embed_each] in Hrun.
    destruct (embed_text client t) as [v|e]; [|discriminate].
    cbn in Hrun. destruct (embed_each client texts) as [vs|e];
      [|discriminate].
    cbn in Hrun. injection Hrun as <-. cbn. rewrite (IH vs eq_refl).
    reflexivity.
Qed.

Lemma embed_each_raises texts :
  Exists (fun t => embeds client t = false) texts ->
  exists e, embed_each client texts = Raise e.
Proof.
  induction 1 as [t texts Ht|t texts _ IH]; cbn [embed_each].
  - unfold embeds in Ht.
    destruct (embed_text client t) as [v|e]; [discriminate|]. eauto.
  - destruct (embed_text client t) as [v|e]; [|eauto].
    destruct IH as [e ->]. eauto.
Qed.

Lemma add_rows_inv (ix ix' : IndexFlatIP F) (rows : list (list F)) :
  add_rows ix rows = Ok ix' ->
  xb ix' = xb ix ++ rows /\ d ix' = d ix /\ rows <> []
  /\ Forall (fun r => len r = d ix) rows.
Proof.
  unfold add_rows, faiss_add. destruct rows as [|r rows]; [discriminate|].
  destruct (forallb _ (r :: rows)) eqn:Hsame; [|discriminate].
  cbn [nd_cols nd_rows].
  destruct (Z.eqb_spec (len r) (d ix)) as [Hd|]; [|discriminate].
  intros [= <-]. cbn. repeat split; [discriminate|].
  apply Forall_forall. intros r' Hr'.
  rewrite forallb_forall in Hsame.
  apply list_elem_of_In, Hsame, Nat.eqb_eq in Hr'.
  unfold len in *. lia.
Qed.

(** X8.  [index_batch] of the OpenAI script is all or nothing: when the
    embedding of some text raises, or numpy or the library rejects the
    vectors, the call raises and [index] and [metadata] are as before.  When
    it succeeds, every text has been embedded and stored in order, all
    vectors have the dimension of the index, and one record per pair of
    [zip(texts, metas)] has been added: the two stores grow by the same
    number whenever there are at least as many metas as texts. *)
Theorem index_batch_outcome texts metas st (out : result unit) st' :
  index_batch client texts metas st = (out, st') ->
  (forall e, out = Raise e -> st' = st)
  /\ (Exists (fun t => embeds client t = false) texts ->
      exists e, out = Raise e)
  /\ (out = Ok () ->
      exists embs,
        embed_each client texts = Ok embs
        /\ length embs = length texts
        /\ Forall (fun v => len v = d (g_index st)) embs
        /\ xb (g_index st') = xb (g_index st) ++ embs
        /\ g_metadata st' = g_metadata st ++ zip_with with_text texts metas
        /\ ((length texts <= length metas)%nat ->
            ntotal (g_index st') - ntotal (g_index st)
            = len (g_metadata st') - len (g_metadata st))).
Proof.
  unfold index_batch. intros Hrun.
  destruct (embed_each client texts) as [embs|e] eqn:Hembs.
  - destruct (add_rows (g_index st) embs) as [ix|e] eqn:Hadd.
    + injection Hrun as <- <-. split; [discriminate|]. split.
      * intros Hfail. apply embed_each_raises in Hfail as [e He].
        congruence.
      * intros _. exists embs.
        apply add_rows_inv in Hadd as (Hxb & _ & _ & Hdim).
        pose proof (embed_each_length _ _ Hembs) as Hlen. cbn.
        repeat split; try assumption.
        intros Hmetas. unfold ntotal, len.
        rewrite Hxb, !length_app, length_zip_with. lia.
    + injection Hrun as <- <-. split; [reflexivity|]. split; [eauto|].
      discriminate.
  - injection Hrun as <- <-. split; [reflexivity|]. split; [eauto|].
    discriminate.
Qed.




Lemma embed_valid_aligned (fuel : nat) (i : Z) texts metas
    (embs : list (list F)) (vt : list string) (vm : list Dict) :
  length embs = length vt -> length embs = length vm ->
  exists r,
    embed_valid client (S fuel) i texts metas embs vt vm = Some r
    /\ forall embs' vt' vm',
         r = Ok (embs', vt', vm') ->
         length embs' = length vt' /\ length embs' = length vm'.
Proof.
  revert i embs vt vm.
  induction texts as [|t texts IH]; intros i embs vt vm Hvt Hvm.
  - eexists. split; [reflexivity|]. intros ? ? ? [= <- <- <-]. auto.
  - cbn [embed_valid]. rewrite safe_embed_manual_no_split.
    unfold embed_text_manual.
    destruct (embed_text client t) as [v|e].
    + destruct (getitem metas i) as [m|e].
      * apply IH; rewrite !length_app; cbn; lia.
      * eexists. split; [reflexivity|]. discriminate.
    + apply IH; assumption.
Qed.

(** X10.  Whatever the texts and metas, [index_batch] of the manual script
    returns and never leaves the two stores out of step: it adds as many
    vectors as records, and when it raises it adds nothing. *)
Theorem index_batch_manual_aligned (fuel : nat) texts metas st :
  exists (out : result unit) st',
    index_batch_manual client (S fuel) texts metas st = Some (out, st')
    /\ ntotal (g_index st') - ntotal (g_index st)
       = len (g_metadata st') - len (g_metadata st)
    /\ (forall e, out = Raise e -> st' = st).
Proof.
  unfold index_batch_manual.
  destruct (embed_valid_aligned fuel 0 texts metas [] [] [] eq_refl eq_refl)
    as (r & -> & Hlens).
  destruct r as [[[embs vt] vm]|e].
  - destruct (Hlens embs vt vm eq_refl) as [Hvt Hvm].
    destruct embs as [|v embs].
    + exists (Ok ()), st. split; [reflexivity|]. split; [lia|reflexivity].
    + destruct (add_rows (g_index st) (v :: embs)) as [ix|e] eqn:Hadd.
      * eexists _, _. split; [reflexivity|]. split; [|discriminate].
        apply add_rows_inv in Hadd as (Hxb & _). unfold ntotal, len. cbn.
        rewrite Hxb, !length_app, length_zip_with. cbn in *. lia.
      * eexists _, _. split; [reflexivity|]. split; [lia|reflexivity].
  - eexists _, _. split; [reflexivity|]. split; [lia|reflexivity].
Qed.

End IngestionFacts.

(** ** [generate_excerpts] without assumptions on the hits *)

Section ExcerptErrors.

Context {F : Type}.

Implicit Types (records : list Dict) (relevant : list (Z * F))
  (acc : list (value * Dict)) (seen : gset (value * value)).

Lemma getitem_elem_of {A} (l : list A) (i : Z) (x : A) :
  getitem l i = Ok x -> x ∈ l.
Proof.
  unfold getitem.
  destruct ((0 <=? (if i <? 0 then i + len l else i))
            && ((if i <? 0 then i + len l else i) <? len l));
    [|discriminate].
  destruct (l !! Z.to_nat (if i <? 0 then i + len l else i)) as [y|] eqn:Hy;
    [|discriminate].
  intros [= <-]. eapply list_elem_of_lookup_2, Hy.
Qed.

Lemma getitem_wrap {A} (l : list A) (i : Z) :
  - len l <= i < 0 -> getitem l i = getitem l (i + len l).
Proof.
  intros Hi. unfold getitem.
  destruct (Z.ltb_spec i 0); [|lia].
  destruct (Z.ltb_spec (i + len l) 0); [lia|]. reflexivity.
Qed.

Lemma getitem_out_of_range {A} (l : list A) (i : Z) :
  i < - len l \/ len l <= i -> getitem l i = Raise IndexError.
Proof.
  intros Hi. unfold getitem.
  destruct (Z.ltb_spec i 0).
  - destruct (Z.leb_spec 0 (i + len l)); [|reflexivity].
    destruct (Z.ltb_spec (i + len l) (len l)); [|reflexivity]. lia.
  - destruct (Z.leb_spec 0 i); [|reflexivity].
    destruct (Z.ltb_spec i (len l)); [|reflexivity]. lia.
Qed.

Lemma excerpts_loop_post records relevant acc seen out :
  excerpts_loop records relevant acc seen = Ok out ->
  Forall (sound_excerpt records) acc ->
  NoDup ((fun e => record_key (snd e)) <$> acc) ->
  (forall e, e ∈ acc ->
     exists s c, record_key (snd e) = (Some s, Some c) /\ (s, c) ∈ seen) ->
  Forall (sound_excerpt records) out
  /\ NoDup ((fun e => record_key (snd e)) <$> out)
  /\ (length out <= length acc + length relevant)%nat.
Proof.
  revert acc seen.
  induction relevant as [|[idx score] relevant IH];
    intros acc seen Hrun Hsound Hnodup Hseen.
  - injection Hrun as <-. cbn. repeat split; [assumption..|lia].
  - cbn [excerpts_loop] in Hrun.
    destruct (getitem records idx) as [m|e] eqn:Hm; [|discriminate].
    cbn [mbind result_bind Py.bind] in Hrun. unfold dict_get in Hrun.
    destruct (m !! "source") as [s|] eqn:Hs; [|discriminate].
    cbn [mbind result_bind Py.bind] in Hrun.
    destruct (m !! "chunk_id") as [c|] eqn:Hc; [|discriminate].
    cbn [mbind result_bind Py.bind] in Hrun.
    destruct (decide ((s, c) ∈ seen)) as [Hin|Hout].
    + destruct (IH acc seen Hrun Hsound Hnodup Hseen) as (? & ? & ?).
      repeat split; [assumption..|cbn; lia].
    + destruct (m !! "text") as [t|] eqn:Ht; [|discriminate].
      cbn [mbind result_bind Py.bind] in Hrun.
      destruct (IH (acc ++ [(t, m)]) ({[(s, c)]} ∪ seen) Hrun)
        as (Hout_sound & Hout_nodup & Hlen).
      * apply Forall_app. split; [exact Hsound|].
        constructor; [|constructor].
        unfold sound_excerpt. cbn. rewrite Hs, Hc.
        eauto using getitem_elem_of.
      * rewrite fmap_app. apply NoDup_app. split; [exact Hnodup|].
        split; [|cbn; apply NoDup_singleton].
        intros k Hk Hk'. cbn in Hk'. apply list_elem_of_singleton in Hk'.
        apply list_elem_of_fmap in Hk as (e & -> & He).
        destruct (Hseen e He) as (s' & c' & Hkey & Hin).
        unfold record_key in Hk' at 2. rewrite Hs, Hc in Hk'.
        rewrite Hkey in Hk'. injection Hk' as -> ->. contradiction.
      * intros e He. apply elem_of_app in He as [He|He].
        -- destruct (Hseen e He) as (s' & c' & Hkey & Hin).
           exists s', c'. split; [exact Hkey|].
           apply elem_of_union. right. exact Hin.
        -- apply list_elem_of_singleton in He as ->. exists s, c. cbn.
           unfold record_key. rewrite Hs, Hc. split; [reflexivity|].
           apply elem_of_union. left. apply elem_of_singleton. reflexivity.
      * rewrite length_app in Hlen. cbn in Hlen.
        repeat split; [assumption..|cbn; lia].
Qed.

Lemma generate_excerpts_records (self : FAISSIndex F) relevant
    (excerpts : list (value * Dict)) :
  generate_excerpts self relevant = Ok excerpts ->
  Forall (sound_excerpt (metadata self)) excerpts.
Proof.
  intros Hrun.
  apply (excerpts_loop_post _ _ [] ∅ _ Hrun); [constructor|constructor|].
  intros e He. inversion He.
Qed.

(** X11.  Whenever [generate_excerpts] returns, whatever the hits, every
    excerpt is a record of the metadata store together with its [text]; the
    record has a [source] and a [chunk_id]; no two excerpts share
    [(source, chunk_id)]; and there are at most as many excerpts as
    hits. *)
Theorem generate_excerpts_sound (self : FAISSIndex F) relevant
    (excerpts : list (value * Dict)) :
  generate_excerpts self relevant = Ok excerpts ->
  Forall (sound_excerpt (metadata self)) excerpts
  /\ NoDup ((fun e => record_key (snd e)) <$> excerpts)
  /\ (length excerpts <= length relevant)%nat.
Proof.
  intros Hrun.
  apply (excerpts_loop_post _ _ [] ∅ _ Hrun); [constructor|constructor|].
  intros e He. inversion He.
Qed.

Lemma excerpts_loop_same_records records relevant relevant' acc seen :
  Forall2 (fun h h' => getitem records (fst h) = getitem records (fst h'))
    relevant relevant' ->
  excerpts_loop records relevant acc seen
  = excerpts_loop records relevant' acc seen.
Proof.
  intros Hsame. revert acc seen.
  induction Hsame as [|[idx score] [idx' score'] relevant relevant' Hh _ IH];
    intros acc seen; [reflexivity|].
  cbn [fst] in Hh. cbn [excerpts_loop]. rewrite Hh.
  destruct (getitem records idx') as [m|e]; [|reflexivity].
  cbn [mbind result_bind Py.bind].
  destruct (dict_get m "source") as [s|e]; [|reflexivity].
  cbn [mbind result_bind Py.bind].
  destruct (dict_get m "chunk_id") as [c|e]; [|reflexivity].
  cbn [mbind result_bind Py.bind].
  destruct (decide ((s, c) ∈ seen)); [apply IH|].
  destruct (dict_get m "text") as [t|e]; [|reflexivity].
  cbn [mbind result_bind Py.bind]. apply IH.
Qed.

(** X12.  [generate_excerpts] looks at the positions of the hits only, and
    a negative position counts from the end of the metadata: two hit lists
    whose positions resolve alike give the same outcome, whatever the
    scores, and position [i] with [-len(metadata) <= i < 0] acts as
    position [i + len(metadata)]; position [-1] is the last record. *)
Theorem generate_excerpts_positions (self : FAISSIndex F) :
  (forall relevant relevant',
     Forall2 (fun h h' => getitem (metadata self) (fst h)
                          = getitem (metadata self) (fst h'))
       relevant relevant' ->
     generate_excerpts self relevant = generate_excerpts self relevant')
  /\ (forall relevant relevant',
        map fst relevant = map fst relevant' ->
        generate_excerpts self relevant = generate_excerpts self relevant')
  /\ (forall i score relevant,
        - len (metadata self) <= i < 0 ->
        generate_excerpts self ((i, score) :: relevant)
        = generate_excerpts self ((i + len (metadata self), score)
                                    :: relevant)).
Proof.
  assert (Hsame : forall relevant relevant',
     Forall2 (fun h h' => getitem (metadata self) (fst h)
                          = getitem (metadata self) (fst h'))
       relevant relevant' ->
     generate_excerpts self relevant = generate_excerpts self relevant').
  { intros relevant relevant' H. apply excerpts_loop_same_records, H. }
  split; [exact Hsame|]. split.
  - intros relevant relevant' Hfst. apply Hsame.
    revert relevant' Hfst.
    induction relevant as [|h relevant IH]; intros [|h' relevant'] Hfst.
    + constructor.
    + discriminate Hfst.
    + discriminate Hfst.
    + cbn in Hfst. injection Hfst as Hh Ht.
      constructor; [rewrite Hh; reflexivity|apply IH, Ht].
  - intros i score relevant Hi. apply Hsame. constructor.
    + cbn. apply getitem_wrap, Hi.
    + clear. induction relevant; constructor; auto.
Qed.

Lemma excerpts_loop_prefix records (pre : list (Z * F)) (ms : list Dict)
    acc seen :
  Forall2 (fun hit m => getitem records (fst hit) = Ok m) pre ms ->
  Forall complete ms ->
  exists acc' seen',
    forall rest,
      excerpts_loop records (pre ++ rest) acc seen
      = excerpts_loop records rest acc' seen'.
Proof.
  intros Hres. revert acc seen.
  induction Hres as [|[idx score] m pre ms Hm _ IH];
    intros acc seen Hcomplete; [eauto|].
  apply Forall_cons in Hcomplete as [([s Hs] & [c Hc] & [t Ht]) Hcomplete].
  cbn [fst] in Hm.
  destruct (decide ((s, c) ∈ seen)) as [Hin|Hout].
  - destruct (IH acc seen Hcomplete) as (acc' & seen' & Hrun).
    exists acc', seen'. intros rest. cbn [app excerpts_loop]. rewrite Hm.
    cbn [mbind result_bind Py.bind]. unfold dict_get. rewrite Hs.
    cbn [mbind result_bind Py.bind]. rewrite Hc.
    cbn [mbind result_bind Py.bind]. rewrite decide_True by exact Hin.
    apply Hrun.
  - destruct (IH (acc ++ [(t, m)]) ({[(s, c)]} ∪ seen) Hcomplete)
      as (acc' & seen' & Hrun).
    exists acc', seen'. intros rest. cbn [app excerpts_loop]. rewrite Hm.
    cbn [mbind result_bind Py.bind]. unfold dict_get. rewrite Hs.
    cbn [mbind result_bind Py.bind]. rewrite Hc.
    cbn [mbind result_bind Py.bind]. rewrite decide_False by exact Hout.
    rewrite Ht. cbn [mbind result_bind Py.bind]. apply Hrun.
Qed.

(** X13.  The first hit that does not resolve decides the outcome of
    [generate_excerpts]: after hits that resolve to complete records, a
    position outside [-len(metadata) <= i < len(metadata)] raises
    [IndexError], a record without [source] raises [KeyError] for [source],
    and a record with [source] but without [chunk_id] raises [KeyError] for
    [chunk_id].  No excerpt is returned in these cases. *)
Theorem generate_excerpts_raises (self : FAISSIndex F)
    (pre rest : list (Z * F)) (ms : list Dict) (idx : Z) (score : F) :
  Forall2 (fun hit m => getitem (metadata self) (fst hit) = Ok m) pre ms ->
  Forall complete ms ->
  let relevant := pre ++ (idx, score) :: rest in
  (idx < - len (metadata self) \/ len (metadata self) <= idx ->
   generate_excerpts self relevant = Raise IndexError)
  /\ (forall m, getitem (metadata self) idx = Ok m ->
        m !! "source" = None ->
        generate_excerpts self relevant = Raise (KeyError "source"))
  /\ (forall m, getitem (metadata self) idx = Ok m ->
        is_Some (m !! "source") -> m !! "chunk_id" = None ->
        generate_excerpts self relevant = Raise (KeyError "chunk_id")).
Proof.
  intros Hres Hcomplete relevant. subst relevant. unfold generate_excerpts.
  destruct (excerpts_loop_prefix (metadata self) pre ms [] ∅ Hres Hcomplete)
    as (acc' & seen' & Hrun).
  rewrite Hrun. cbn [excerpts_loop]. split; [|split].
  - intros Hidx. rewrite getitem_out_of_range by exact Hidx. reflexivity.
  - intros m Hm Hs. rewrite Hm. cbn [mbind result_bind Py.bind].
    unfold dict_get. rewrite Hs. reflexivity.
  - intros m Hm [s Hs] Hc. rewrite Hm. cbn [mbind result_bind Py.bind].
    unfold dict_get. rewrite Hs. cbn [mbind result_bind Py.bind].
    rewrite Hc. reflexivity.
Qed.

End ExcerptErrors.

(** ** [build_prompt] *)

Lemma string_app_assoc (s1 s2 s3 : string) :
  (s1 +:+ s2) +:+ s3 = s1 +:+ s2 +:+ s3.
Proof.
  induction s1 as [|c s1 IH]; [reflexivity|].
  change (String c ((s1 +:+ s2) +:+ s3) = String c (s1 +:+ s2 +:+ s3)).
  rewrite IH. reflexivity.
Qed.

Lemma string_app_empty_r (s : string) : s +:+ "" = s.
Proof.
  induction s as [|c s IH]; [reflexivity|].
  change (String c (s +:+ "") = String c s). rewrite IH. reflexivity.
Qed.

Lemma excerpt_blocks_cons (first : Z) (e : value * Dict)
    (excerpts : list (value * Dict)) :
  excerpt_blocks first (e :: excerpts)
  = excerpt_block first e +:+ excerpt_blocks (first + 1) excerpts.
Proof.
  unfold excerpt_blocks. rewrite imap_cons. cbn [foldr].
  rewrite Z.add_0_r. do 2 f_equal.
  apply imap_ext. intros i x _. cbn [compose]. f_equal. lia.
Qed.

(** The loop appends the blocks of the excerpts, numbered from [i]. *)
Lemma build_prompt_loop_ok (i : Z) (excerpts : list (value * Dict))
    (prompt : string) :
  Forall (fun e => is_Some (snd e !! "source")) excerpts ->
  build_prompt_loop i excerpts prompt
  = Ok (prompt +:+ excerpt_blocks i excerpts).
Proof.
  intros Hsrc. revert i prompt.
  induction Hsrc as [|[text meta] excerpts [s Hs] _ IH]; intros i prompt.
  - cbn. rewrite string_app_empty_r. reflexivity.
  - cbn [build_prompt_loop]. unfold dict_get. cbn [snd] in Hs. rewrite Hs.
    cbn [mbind result_bind Py.bind]. rewrite IH, excerpt_blocks_cons.
    assert (Hsource : py_str_get meta "source" = py_str s)
      by (unfold py_str_get; rewrite Hs; reflexivity).
    unfold excerpt_block. cbn [fst snd].
    rewrite Hsource, !string_app_assoc. reflexivity.
Qed.

Lemma build_prompt_loop_raises (i : Z) (excerpts : list (value * Dict))
    (prompt : string) :
  Exists (fun e => snd e !! "source" = None) excerpts ->
  build_prompt_loop i excerpts prompt = Raise (KeyError "source").
Proof.
  intros Hmiss. revert i prompt.
  induction Hmiss as [[text meta] excerpts Hs|[text meta] excerpts _ IH];
    intros i prompt; cbn [build_prompt_loop]; unfold dict_get.
  - cbn [snd] in Hs. rewrite Hs. reflexivity.
  - destruct (meta !! "source"); [|reflexivity].
    cbn [mbind result_bind Py.bind]. apply IH.
Qed.

Lemma build_prompt_ok (excerpts : list (value * Dict))
    (augmented_query : string) :
  Forall (fun e => is_Some (snd e !! "source")) excerpts ->
  build_prompt excerpts augmented_query
  = Ok (template +:+ excerpt_blocks 1 excerpts +:+ "QUESTION: "
        +:+ augmented_query +:+ nl +:+ "ANSWER:").
Proof.
  intros Hsrc. unfold build_prompt.
  rewrite build_prompt_loop_ok by exact Hsrc.
  cbn [mbind result_bind Py.bind]. rewrite string_app_assoc. reflexivity.
Qed.

(** X14.  [build_prompt] raises exactly when the record of some excerpt
    has no [source], and then it raises [KeyError] for [source]; a missing
    [chunk_id] is printed as [None].  Otherwise the prompt is the template,
    then one block for each excerpt, in the order of the excerpts and
    numbered from 1, each with the source, the chunk id and the text of its
    excerpt, and last the line of the question followed by [ANSWER:]. *)
Theorem build_prompt_outcome (excerpts : list (value * Dict))
    (augmented_query : string) :
  (Forall (fun e => is_Some (snd e !! "source")) excerpts ->
   build_prompt excerpts augmented_query
   = Ok (template +:+ excerpt_blocks 1 excerpts
         +:+ "QUESTION: " +:+ augmented_query +:+ nl +:+ "ANSWER:"))
  /\ (Exists (fun e => snd e !! "source" = None) excerpts ->
      build_prompt excerpts augmented_query = Raise (KeyError "source"))
  /\ (forall text meta,
        meta !! "chunk_id" = None ->
        excerpt_block 1 (text, meta)
        = "Excerpt [1] (source: " +:+ py_str_get meta "source"
          +:+ " | chunk_id: None):" +:+ nl +:+ py_str text +:+ nl +:+ nl).
Proof.
  split; [|split].
  - intros Hsrc. apply build_prompt_ok, Hsrc.
  - intros Hmiss. unfold build_prompt.
    rewrite build_prompt_loop_raises by exact Hmiss. reflexivity.
  - intros text meta Hc. unfold excerpt_block, py_str_get at 2.
    cbn [fst snd]. rewrite Hc. reflexivity.
Qed.

Lemma build_prompt_outcome_witness :
  build_prompt [(VStr "alpha", record_a); (VStr "beta", record_b)] "why?"
  = Ok (template
        +:+ "Excerpt [1] (source: doc1 | chunk_id: 3):" +:+ nl
        +:+ "alpha" +:+ nl +:+ nl
        +:+ "Excerpt [2] (source: doc2 | chunk_id: 0):" +:+ nl
        +:+ "beta" +:+ nl +:+ nl
        +:+ "QUESTION: why?" +:+ nl +:+ "ANSWER:")
  /\ build_prompt [(VStr "alpha", record_a); (VStr "x", ∅)] "why?"
     = Raise (KeyError "source").
Proof.
  split.
  - rewrite (proj1 (build_prompt_outcome
                      [(VStr "alpha", record_a); (VStr "beta", record_b)]
                      "why?")).
    + vm_compute. reflexivity.
    + repeat constructor; vm_compute; eauto.
  - apply (proj1 (proj2 (build_prompt_outcome
                    [(VStr "alpha", record_a); (VStr "x", ∅)] "why?"))).
    right. left. reflexivity.
Defined.

(** X15.  The excerpts of [generate_excerpts] always make a prompt:
    [build_prompt] on them never raises, whatever the hits and the
    metadata. *)
Theorem build_prompt_after_generate_excerpts (F : Type)
    (self : FAISSIndex F) (relevant : list (Z * F))
    (excerpts : list (value * Dict)) (augmented_query : string) :
  generate_excerpts self relevant = Ok excerpts ->
  exists body,
    build_prompt excerpts augmented_query
    = Ok (template +:+ body +:+ "QUESTION: " +:+ augmented_query
          +:+ nl +:+ "ANSWER:").
Proof.
  intros Hrun. exists (excerpt_blocks 1 excerpts). apply build_prompt_ok.
  apply generate_excerpts_records in Hrun.
  eapply Forall_impl; [exact Hrun|].
  intros e (_ & _ & Hs & _). exact Hs.
Qed.

Lemma build_prompt_after_generate_excerpts_witness :
  exists body,
    build_prompt [(VStr "alpha", record_a)] "why?"
    = Ok (template +:+ body +:+ "QUESTION: " +:+ "why?" +:+ nl
          +:+ "ANSWER:").
Proof.
  apply (build_prompt_after_generate_excerpts Z int_index [(0, 3); (2, 2)]).
  vm_compute. reflexivity.
Defined.

(** ** Construction, [load_index] and [save_index] beyond the round trip *)

Section PersistenceFacts.

Context {F : Type}.

Implicit Types (self : FAISSIndex F) (fs : gmap string (file F)).

Variable index_is_text : IndexFlatIP F -> bool.

Lemma path_exists_Some fs path f :
  fs !! path = Some f -> path_exists fs path = true.
Proof. intros Hf. unfold path_exists. apply bool_decide_eq_true_2. eauto. Qed.

(** When both paths exist and the index file is no index, the library's
    [read_index] raises and nothing is loaded. *)
Lemma load_index_unreadable_index self fs f :
  fs !! index_path self = Some f ->
  is_Some (fs !! meta_path self) ->
  (forall ix, f <> FaissFile ix) ->
  load_index index_is_text fs self = (Raise RuntimeError, self).
Proof.
  intros Hf [g Hg] Hbad. unfold load_index.
  rewrite (path_exists_Some _ _ _ Hf), (path_exists_Some _ _ _ Hg).
  cbn [andb]. unfold read_index. rewrite Hf.
  destruct f as [ix| |]; [destruct (Hbad ix eq_refl)|reflexivity..].
Qed.

(** When the index file is readable and [json.load] raises on the metadata
    file, [load_index] raises the same exception after it has taken the
    vectors of the file. *)
Lemma load_index_json_raises self fs ix e :
  fs !! index_path self = Some (FaissFile ix) ->
  is_Some (fs !! meta_path self) ->
  json_load index_is_text fs (meta_path self) = Raise e ->
  load_index index_is_text fs self = (Raise e, set_index self ix).
Proof.
  intros Hix [g Hg] Hraise. unfold load_index.
  rewrite (path_exists_Some _ _ _ Hix), (path_exists_Some _ _ _ Hg).
  cbn [andb]. unfold read_index. rewrite Hix.
  cbn [set_index meta_path]. rewrite Hraise. reflexivity.
Qed.

(** X16.  Construction gives the empty index when one of the two paths
    does not exist.  When both exist and the index file is not a readable
    index, construction raises the library's [RuntimeError]; when the index
    file is readable and [json.load] raises on the metadata file,
    construction raises that exception, which is [JSONDecodeError] for text
    that is not JSON and [UnicodeDecodeError] for bytes that are not text.
    No instance is made in these cases. *)
Theorem init_outcome (embed_dim_ : Z) (index_path_ meta_path_ : string)
    (threshold : F) fs :
  (fs !! index_path_ = None \/ fs !! meta_path_ = None ->
   init index_is_text embed_dim_ index_path_ meta_path_ threshold fs
   = Ok {| embed_dim := embed_dim_; index_path := index_path_;
           meta_path := meta_path_;
           index := {| d := embed_dim_; xb := [] |};
           metadata := []; similarity_threshold := threshold |})
  /\ (forall f,
        fs !! index_path_ = Some f -> is_Some (fs !! meta_path_) ->
        (forall ix, f <> FaissFile ix) ->
        init index_is_text embed_dim_ index_path_ meta_path_ threshold fs
        = Raise RuntimeError)
  /\ (forall ix e,
        fs !! index_path_ = Some (FaissFile ix) ->
        is_Some (fs !! meta_path_) ->
        json_load index_is_text fs meta_path_ = Raise e ->
        init index_is_text embed_dim_ index_path_ meta_path_ threshold fs
        = Raise e)
  /\ (forall ix text,
        fs !! index_path_ = Some (FaissFile ix) ->
        fs !! meta_path_ = Some (OtherFile text) ->
        init index_is_text embed_dim_ index_path_ meta_path_ threshold fs
        = Raise (if text then JSONDecodeError else UnicodeDecodeError)).
Proof.
  unfold init. split; [|split; [|split]].
  - intros Hmiss. rewrite load_index_missing by exact Hmiss. reflexivity.
  - intros f Hf Hg Hbad.
    rewrite (load_index_unreadable_index _ _ f) by assumption. reflexivity.
  - intros ix e Hix Hg Hraise.
    rewrite (load_index_json_raises _ _ ix e) by assumption. reflexivity.
  - intros ix text Hix Hg.
    rewrite (load_index_json_raises _ _ ix (not_json text)); [reflexivity|..].
    + exact Hix.
    + cbn [meta_path]. rewrite Hg. eauto.
    + unfold json_load. cbn [meta_path]. rewrite Hg. reflexivity.
Qed.

(** X17.  [load_index] is not all or nothing: when the index file is
    readable and [json.load] raises on the metadata file, the call raises
    that exception after it has replaced the stored vectors, and the object
    is left with the vectors of the file and the metadata it had before. *)
Theorem load_index_partial self fs ix e :
  fs !! index_path self = Some (FaissFile ix) ->
  is_Some (fs !! meta_path self) ->
  json_load index_is_text fs (meta_path self) = Raise e ->
  exists self',
    load_index index_is_text fs self = (Raise e, self')
    /\ index self' = ix
    /\ metadata self' = metadata self.
Proof.
  intros Hix Hg Hraise. exists (set_index self ix).
  split; [apply load_index_json_raises; assumption|].
  split; reflexivity.
Qed.

(** X18.  [load_index] is idempotent: loading again from the same files
    after a successful load changes nothing. *)
Theorem load_index_idempotent self self' fs :
  load_index index_is_text fs self = (Ok (), self') ->
  load_index index_is_text fs self' = (Ok (), self').
Proof.
  unfold load_index.
  destruct (path_exists fs (index_path self)
            && path_exists fs (meta_path self)) eqn:Hex.
  - destruct (read_index fs (index_path self)) as [ix|e] eqn:Hix;
      [|discriminate].
    cbn [set_index meta_path].
    destruct (json_load index_is_text fs (meta_path self))
      as [md|e] eqn:Hmd;
      [|discriminate].
    intros [= <-]. cbn [set_metadata set_index index_path meta_path].
    rewrite Hex, Hix. cbn [set_index meta_path]. rewrite Hmd. reflexivity.
  - intros [= <-]. rewrite Hex. reflexivity.
Qed.

(** X19.  [save_index] writes the two paths and nothing else: every other
    file is as before, the metadata path holds the metadata records, the
    index path holds the index when the two paths differ, and saving twice
    is saving once. *)
Theorem save_index_frame self fs :
  (forall path,
     path <> index_path self -> path <> meta_path self ->
     save_index self fs !! path = fs !! path)
  /\ save_index self fs !! meta_path self = Some (JsonFile (metadata self))
  /\ (index_path self <> meta_path self ->
      save_index self fs !! index_path self = Some (FaissFile (index self)))
  /\ save_index self (save_index self fs) = save_index self fs.
Proof.
  unfold save_index, json_dump, write_index. split; [|split; [|split]].
  - intros path Hix Hmd. rewrite !lookup_insert_ne by congruence.
    reflexivity.
  - apply lookup_insert_eq.
  - intros Hne. rewrite lookup_insert_ne by congruence.
    apply lookup_insert_eq.
  - apply map_eq. intros path.
    destruct (decide (path = meta_path self)) as [->|Hmd].
    { rewrite !lookup_insert_eq. reflexivity. }
    rewrite (lookup_insert_ne _ (meta_path self) path) by congruence.
    destruct (decide (path = index_path self)) as [->|Hix].
    { rewrite lookup_insert_eq.
      rewrite (lookup_insert_ne _ (meta_path self)) by congruence.
      rewrite lookup_insert_eq. reflexivity. }
    repeat (rewrite lookup_insert_ne by congruence). reflexivity.
Qed.

(** X20.  When [index_path] and [meta_path] are the same path,
    [save_index] leaves the metadata there, written last, and constructing
    an instance on that path raises: the saved index cannot be loaded. *)
Theorem save_same_path_unloadable self fs (embed_dim' : Z) (threshold' : F) :
  index_path self = meta_path self ->
  save_index self fs !! index_path self = Some (JsonFile (metadata self))
  /\ init index_is_text embed_dim' (index_path self) (meta_path self)
       threshold' (save_index self fs)
     = Raise RuntimeError.
Proof.
  intros Hsame.
  assert (Hfile : save_index self fs !! index_path self
                  = Some (JsonFile (metadata self))).
  { unfold save_index, json_dump, write_index. rewrite Hsame.
    apply lookup_insert_eq. }
  split; [exact Hfile|].
  unfold init.
  rewrite (load_index_unreadable_index _ _ (JsonFile (metadata self)));
    [reflexivity|..].
  - exact Hfile.
  - cbn [meta_path index_path]. rewrite <- Hsame, Hfile. eauto.
  - discriminate.
Qed.

End PersistenceFacts.

(** ** [search] over any library search *)

Section SearchAnyLibrary.

Context {F : Type} `{Scalar F}.

Variable index_search
  : IndexFlatIP F -> list F -> Z -> result (list F * list Z).

(** X21.  Whatever the library search does, [search] passes its exception
    on, and otherwise returns the pairs of [zip(indices[0], distances[0])]
    whose score is at or above the threshold, in their order: no hit is
    below the threshold, none is invented, and there are no more hits than
    places in the shorter of the two rows. *)
Theorem search_filters_library (self : FAISSIndex F) (q : list F) (k : Z) :
  (forall e, index_search (index self) q k = Raise e ->
     search index_search self q k = Raise e)
  /\ (forall distances indices,
        index_search (index self) q k = Ok (distances, indices) ->
        let hits := filter (qualifies (similarity_threshold self))
                      (zip indices distances) in
        search index_search self q k = Ok hits
        /\ sublist hits (zip indices distances)
        /\ Forall (qualifies (similarity_threshold self)) hits
        /\ (length hits <= Nat.min (length indices) (length distances))%nat).
Proof.
  split.
  - intros e Hlib. unfold search. rewrite Hlib. reflexivity.
  - intros distances indices Hlib hits. unfold search. rewrite Hlib.
    cbn [mbind result_bind Py.bind].
    rewrite search_loop_filter. cbn [app]. fold hits.
    split; [reflexivity|]. split; [apply sublist_filter|]. split.
    + apply Forall_forall. intros h Hh.
      apply list_elem_of_filter in Hh. tauto.
    + etransitivity; [apply length_filter|].
      rewrite length_zip_with. lia.
Qed.

End SearchAnyLibrary.

Lemma filter_filter_weaker {A} (P Q : A -> Prop)
    `{forall x, Decision (P x)} `{forall x, Decision (Q x)} (l : list A) :
  (forall x, Q x -> P x) -> filter Q (filter P l) = filter Q l.
Proof.
  intros HQP. induction l as [|x l IH]; [reflexivity|].
  destruct (decide (P x)) as [HP|HP].
  - rewrite (filter_cons_True P) by exact HP.
    destruct (decide (Q x)) as [HQ|HQ].
    + rewrite !(filter_cons_True Q) by exact HQ. rewrite IH. reflexivity.
    + rewrite !(filter_cons_False Q) by exact HQ. exact IH.
  - rewrite (filter_cons_False P) by exact HP.
    rewrite (filter_cons_False Q) by (intros HQ; apply HP, HQP, HQ).
    exact IH.
Qed.

(** X22.  Raising the threshold only removes hits.  For two instances on
    the same stored vectors, with [>=] transitive, the search under the
    higher threshold returns the hits of the search under the lower one that
    reach the higher threshold, in the same order.  Totality of [>=] is not
    needed, so this holds of floating-point scores, NaN included. *)
Theorem search_threshold_monotone (F : Type) (SF : Scalar F)
    (index_search : IndexFlatIP F -> list F -> Z -> result (list F * list Z))
    (self1 self2 : FAISSIndex F) (q : list F) (k : Z)
    (hits1 : list (Z * F)) :
  (forall x y z : F,
     fgeb x y = true -> fgeb y z = true -> fgeb x z = true) ->
  index self2 = index self1 ->
  fgeb (similarity_threshold self2) (similarity_threshold self1) = true ->
  search index_search self1 q k = Ok hits1 ->
  search index_search self2 q k
  = Ok (filter (qualifies (similarity_threshold self2)) hits1)
  /\ sublist (filter (qualifies (similarity_threshold self2)) hits1) hits1.
Proof.
  intros Htrans Hix Hthr Hrun. split; [|apply sublist_filter].
  apply search_library_order in Hrun
    as (distances & indices & Hlib & ->).
  unfold search. rewrite Hix, Hlib. cbn [mbind result_bind Py.bind].
  rewrite search_loop_filter, app_nil_l. f_equal. symmetry.
  apply filter_filter_weaker.
  intros h Hh. unfold qualifies in *. eapply Htrans; eassumption.
Qed.

(** A run on floating-point scores: of the hits 1 and 0.75 found under the
    threshold 0.5, the first is left under the threshold 0.875. *)
Lemma search_threshold_monotone_witness :
  search (exact_search Z.leb)
    {| embed_dim := 2; index_path := "ix.faiss"; meta_path := "meta.json";
       index := index loaded_index; metadata := [];
       similarity_threshold := 0.875%float |} [0.75%float; 1%float] 2
  = Ok (filter (qualifies 0.875%float) [(1, 1%float); (0, 0.75%float)]).
Proof.
  apply (search_threshold_monotone float float_scalar
           (exact_search Z.leb) loaded_index).
  - apply (@fgeb_trans float float_scalar float_scalar_order).
  - reflexivity.
  - reflexivity.
  - vm_compute. reflexivity.
Defined.

(** ** The route [chat] *)

Section ChatFacts.

Context {F : Type} `{Scalar F}.

Variable extract_text : string -> result string.
Variable client : string -> result (list F).
Variable index_search
  : IndexFlatIP F -> list F -> Z -> result (list F * list Z).
Variable faiss : FAISSIndex F.
Variable exn_str : exn -> string.
Variable answer : string -> chat_outcome.

#[local] Abbreviation chat_ :=
  (chat extract_text client index_search faiss exn_str answer).

Lemma excerpts_loop_extends (records : list Dict) (relevant : list (Z * F))
    (acc out : list (value * Dict)) (seen : gset (value * value)) :
  excerpts_loop records relevant acc seen = Ok out ->
  exists more, out = acc ++ more.
Proof.
  revert acc seen.
  induction relevant as [|[idx score] relevant IH]; intros acc seen Hrun.
  - injection Hrun as <-. exists []. rewrite app_nil_r. reflexivity.
  - cbn [excerpts_loop] in Hrun.
    destruct (getitem records idx) as [m|e]; [|discriminate].
    cbn [mbind result_bind Py.bind] in Hrun.
    destruct (dict_get m "source") as [s|e]; [|discriminate].
    cbn [mbind result_bind Py.bind] in Hrun.
    destruct (dict_get m "chunk_id") as [c|e]; [|discriminate].
    cbn [mbind result_bind Py.bind] in Hrun.
    destruct (decide ((s, c) ∈ seen)); [eauto|].
    destruct (dict_get m "text") as [t|e]; [|discriminate].
    cbn [mbind result_bind Py.bind] in Hrun.
    apply IH in Hrun as [more ->]. exists ((t, m) :: more).
    rewrite <- app_assoc. reflexivity.
Qed.

Lemma generate_excerpts_nonempty (self : FAISSIndex F) (h : Z * F)
    (relevant : list (Z * F)) (excerpts : list (value * Dict)) :
  generate_excerpts self (h :: relevant) = Ok excerpts -> excerpts <> [].
Proof.
  unfold generate_excerpts. destruct h as [idx score].
  cbn [excerpts_loop]. intros Hrun.
  destruct (getitem (metadata self) idx) as [m|e]; [|discriminate].
  cbn [mbind result_bind Py.bind] in Hrun.
  destruct (dict_get m "source") as [s|e]; [|discriminate].
  cbn [mbind result_bind Py.bind] in Hrun.
  destruct (dict_get m "chunk_id") as [c|e]; [|discriminate].
  cbn [mbind result_bind Py.bind] in Hrun.
  destruct (decide ((s, c) ∈ (∅ : gset (value * value)))) as [Hin|_].
  { apply elem_of_empty in Hin. destruct Hin. }
  destruct (dict_get m "text") as [t|e]; [|discriminate].
  cbn [mbind result_bind Py.bind] in Hrun.
  apply excerpts_loop_extends in Hrun as [more ->]. discriminate.
Qed.

Lemma chat_query_cases (extra : option (list (Z * F))) (aq : string) :
  chat_query client index_search faiss answer extra aq
  = HTTPException 400 "Query cannot be empty."
  \/ chat_query client index_search faiss answer extra aq = no_context
  \/ (exists e,
        chat_query client index_search faiss answer extra aq = Uncaught e)
  \/ (exists excerpts prompt,
        excerpts <> []
        /\ Forall (sound_excerpt (metadata faiss)) excerpts
        /\ build_prompt excerpts aq = Ok prompt
        /\ chat_query client index_search faiss answer extra aq
           = answer prompt).
Proof.
  unfold chat_query. destruct aq as [|c aq]; [auto|].
  destruct (llm_embed client (String c aq)) as [emb|e]; [|eauto].
  destruct (search index_search faiss emb 15) as [relevant|e]; [|eauto].
  set (all := match extra with
              | Some (h :: hs) => relevant ++ h :: hs
              | _ => relevant
              end).
  destruct all as [|h all]; [auto|].
  destruct (generate_excerpts faiss (h :: all)) as [excerpts|e] eqn:Hex;
    [|eauto].
  destruct (build_prompt excerpts (String c aq)) as [prompt|e] eqn:Hprompt;
    [|eauto].
  right. right. right. exists excerpts, prompt.
  split; [eapply generate_excerpts_nonempty, Hex|].
  split; [eapply generate_excerpts_records, Hex|]. auto.
Qed.

(** X23.  The route asks the language model only with a prompt built from
    at least one excerpt, each a record of the metadata store with its
    text and source.  Every call ends in one of four ways: a status 400, the
    fixed answer for a question without context, an exception the route does
    not catch, or the exchange with the model on such a prompt. *)
Theorem chat_consults_with_excerpts (request : ChatRequest) :
  (exists detail, chat_ request = HTTPException 400 detail)
  \/ chat_ request = no_context
  \/ (exists e, chat_ request = Uncaught e)
  \/ (exists excerpts augmented_query prompt,
        excerpts <> []
        /\ Forall (sound_excerpt (metadata faiss)) excerpts
        /\ build_prompt excerpts augmented_query = Ok prompt
        /\ chat_ request = answer prompt).
Proof.
  unfold chat. destruct (image_given request) as [img|].
  - destruct (extract_text img) as [t|e]; [|left; eauto].
    cbn [mbind result_bind Py.bind].
    destruct (llm_embed client (question request)) as [emb|e];
      [|left; eauto].
    cbn [mbind result_bind Py.bind].
    destruct (search index_search faiss emb 15) as [extra|e];
      [|left; eauto].
    cbn [mbind result_bind Py.bind].
    destruct (chat_query_cases (Some extra)
                (question request +:+ nl +:+ nl +:+ "OCR result:" +:+ nl
                 +:+ t))
      as [->|[->|[[e ->]|(ex & p & ? & ? & ? & ->)]]]; eauto 10.
  - destruct (chat_query_cases None (question request))
      as [->|[->|[[e ->]|(ex & p & ? & ? & ? & ->)]]]; eauto 10.
Qed.

(** X24.  Status 400.  Without an image an empty question is refused with
    "Query cannot be empty." before any call is made.  With an image, an
    exception of the text extraction, of the embedding of the question, or
    of the search is reported alike, as "OCR decoding error" with the
    message of the exception. *)
Theorem chat_bad_request (request : ChatRequest) :
  (image_given request = None -> question request = EmptyString ->
   chat_ request = HTTPException 400 "Query cannot be empty.")
  /\ (forall img e,
        image_given request = Some img ->
        extract_text img = Raise e
        \/ (exists t, extract_text img = Ok t
              /\ (llm_embed client (question request) = Raise e
                  \/ exists emb,
                       llm_embed client (question request) = Ok emb
                       /\ search index_search faiss emb 15 = Raise e)) ->
        chat_ request
        = HTTPException 400 ("OCR decoding error: " +:+ exn_str e)).
Proof.
  unfold chat. split.
  - intros -> ->. reflexivity.
  - intros img e -> [Ht|(t & Ht & [Hemb|(emb & Hemb & Hs)])];
      rewrite Ht; cbn [mbind result_bind Py.bind]; [reflexivity| |];
      rewrite Hemb; cbn [mbind result_bind Py.bind]; [reflexivity|];
      rewrite Hs; reflexivity.
Qed.

(** X25.  When the search returns no hit the route answers with the fixed
    sentence and no links, and the language model plays no part: without an
    image when the search on the question is empty, with an image when both
    searches are. *)
Theorem chat_no_context (request : ChatRequest) :
  (forall emb,
     image_given request = None ->
     question request <> EmptyString ->
     llm_embed client (question request) = Ok emb ->
     search index_search faiss emb 15 = Ok [] ->
     chat_ request = no_context)
  /\ (forall img t emb emb',
        image_given request = Some img ->
        extract_text img = Ok t ->
        llm_embed client (question request) = Ok emb ->
        search index_search faiss emb 15 = Ok [] ->
        llm_embed client
          (question request +:+ nl +:+ nl +:+ "OCR result:" +:+ nl +:+ t)
        = Ok emb' ->
        search index_search faiss emb' 15 = Ok [] ->
        chat_ request = no_context).
Proof.
  unfold chat. split.
  - intros emb -> Hq Hemb Hsearch. unfold chat_query.
    destruct (question request) as [|c q]; [congruence|].
    rewrite Hemb, Hsearch. reflexivity.
  - intros img t emb emb' -> Ht Hemb Hs Hemb' Hs'.
    rewrite Ht. cbn [mbind result_bind Py.bind].
    rewrite Hemb. cbn [mbind result_bind Py.bind].
    rewrite Hs. cbn [mbind result_bind Py.bind]. unfold chat_query.
    destruct (question request +:+ nl +:+ nl +:+ "OCR result:" +:+ nl +:+ t)
      as [|c aq] eqn:Haq.
    + destruct (question request); discriminate Haq.
    + rewrite Hemb', Hs'. reflexivity.
Qed.

End ChatFacts.

(** ** Concrete runs of the further properties *)

Lemma index_batch_outcome_witness :
  exists st',
    index_batch short_client ["a"; "b"] [meta_0; meta_1] empty_store
    = (Ok (), st')
    /\ g_metadata st' = zip_with with_text ["a"; "b"] [meta_0; meta_1]
    /\ ntotal (g_index st') - 0 = len (g_metadata st') - 0.
Proof.
  destruct (index_batch short_client ["a"; "b"] [meta_0; meta_1] empty_store)
    as [out st'] eqn:Hrun.
  assert (Hout : out = Ok ()).
  { unfold index_batch in Hrun.
    destruct (embed_each short_client ["a"; "b"]) as [embs|e] eqn:Hembs;
      [|vm_compute in Hembs; discriminate].
    vm_compute in Hembs. injection Hembs as <-.
    destruct (add_rows _ _) as [ix|e] eqn:Hadd;
      [|vm_compute in Hadd; discriminate].
    injection Hrun as <- _. reflexivity. }
  subst out. exists st'. split; [reflexivity|].
  destruct (index_batch_outcome short_client _ _ _ _ _ Hrun)
    as (_ & _ & Hok).
  destruct (Hok eq_refl) as (embs & _ & _ & _ & _ & Hmd & Haligned).
  split; [exact Hmd|]. apply Haligned. vm_compute. lia.
Defined.


Lemma generate_excerpts_sound_witness :
  Forall (sound_excerpt (metadata int_index)) [(VStr "alpha", record_a)].
Proof.
  apply (generate_excerpts_sound int_index [(0, 3); (2, 2)]).
  vm_compute. reflexivity.
Defined.

Lemma generate_excerpts_positions_witness :
  generate_excerpts int_index [(-1, 7)]
  = generate_excerpts int_index [(2, 9)].
Proof.
  destruct (generate_excerpts_positions int_index) as (_ & Hscore & Hwrap).
  rewrite (Hwrap (-1) 7 []) by (unfold len; simpl; lia).
  apply Hscore. reflexivity.
Defined.

Lemma generate_excerpts_raises_witness :
  generate_excerpts int_index [(0, 3); (3, 2); (1, 1)] = Raise IndexError.
Proof.
  apply (proj1 (generate_excerpts_raises int_index [(0, 3)] [(1, 1)]
                  [record_a] 3 2
                  ltac:(repeat constructor)
                  ltac:(repeat constructor; vm_compute; eauto))).
  right. unfold len. simpl. lia.
Defined.

Lemma init_outcome_witness :
  init binary_index 2 "ix.faiss" "meta.json" 0.5%float unreadable_meta_files
  = Raise JSONDecodeError
  /\ init binary_index 2 "ix.faiss" "meta.json" 0.5%float
       undecodable_meta_files
     = Raise UnicodeDecodeError.
Proof.
  split.
  - apply (proj1 (proj2 (proj2 (init_outcome binary_index 2 "ix.faiss"
                                  "meta.json" 0.5%float
                                  unreadable_meta_files)))
             {| d := 2; xb := nd_rows two_rows |} JSONDecodeError).
    + reflexivity.
    + vm_compute. eauto.
    + reflexivity.
  - apply (proj1 (proj2 (proj2 (init_outcome binary_index 2 "ix.faiss"
                                  "meta.json" 0.5%float
                                  undecodable_meta_files)))
             {| d := 2; xb := nd_rows two_rows |} UnicodeDecodeError).
    + reflexivity.
    + vm_compute. eauto.
    + reflexivity.
Defined.

Lemma load_index_partial_witness :
  exists self',
    load_index binary_index unreadable_meta_files empty_index
    = (Raise JSONDecodeError, self')
    /\ index self' = {| d := 2; xb := nd_rows two_rows |}
    /\ metadata self' = [].
Proof.
  apply (load_index_partial binary_index empty_index unreadable_meta_files
           _ JSONDecodeError).
  - reflexivity.
  - vm_compute. eauto.
  - reflexivity.
Defined.

Lemma load_index_idempotent_witness :
  exists self',
    load_index binary_index mismatched_files empty_index = (Ok (), self')
    /\ load_index binary_index mismatched_files self' = (Ok (), self').
Proof.
  eexists. split; [reflexivity|].
  apply (load_index_idempotent binary_index empty_index). reflexivity.
Defined.

Lemma save_index_frame_witness :
  save_index loaded_index mismatched_files !! "other.txt"
  = mismatched_files !! "other.txt".
Proof.
  apply (proj1 (save_index_frame loaded_index mismatched_files));
    cbn; discriminate.
Defined.

Lemma save_same_path_unloadable_witness :
  init binary_index 2 "model.bin" "model.bin" 0.5%float
    (save_index same_path_index ∅)
  = Raise RuntimeError.
Proof.
  apply (proj2 (save_same_path_unloadable binary_index same_path_index ∅ 2
                  0.5%float eq_refl)).
Defined.

Lemma search_filters_library_witness :
  search (exact_search Z.leb) int_index [2; 1] 5
  = Ok (filter (qualifies 1) (zip [2; 0; 1; -1; -1]
                                [3; 2; 1; - 2 ^ 127; - 2 ^ 127])).
Proof.
  apply (proj2 (search_filters_library (exact_search Z.leb) int_index
                  [2; 1] 5)).
  vm_compute. reflexivity.
Defined.

Lemma chat_bad_request_witness :
  chat failing_ocr zero_client (exact_search Z.leb) loaded_index
    plain_exn_str fixed_answer {| question := ""; image := None |}
  = HTTPException 400 "Query cannot be empty."
  /\ chat failing_ocr zero_client (exact_search Z.leb) loaded_index
       plain_exn_str fixed_answer {| question := "q"; image := Some "png" |}
     = HTTPException 400 ("OCR decoding error: " +:+ "error").
Proof.
  split.
  - apply (proj1 (chat_bad_request failing_ocr zero_client
                    (exact_search Z.leb) loaded_index plain_exn_str
                    fixed_answer {| question := ""; image := None |}));
      reflexivity.
  - apply (proj2 (chat_bad_request failing_ocr zero_client
                    (exact_search Z.leb) loaded_index plain_exn_str
                    fixed_answer
                    {| question := "q"; image := Some "png" |})
             "png" ValueError); [reflexivity|].
    left. reflexivity.
Defined.

Lemma chat_no_context_witness :
  chat reading_ocr zero_client (exact_search Z.leb) loaded_index
    plain_exn_str fixed_answer {| question := "q"; image := None |}
  = no_context.
Proof.
  apply (proj1 (chat_no_context reading_ocr zero_client
                  (exact_search Z.leb) loaded_index plain_exn_str
                  fixed_answer {| question := "q"; image := None |})
           [nan; nan]).
  - reflexivity.
  - discriminate.
  - reflexivity.
  - vm_compute. reflexivity.
Defined.

(** ** [ingest_dir] *)

Section IngestDirFacts.

Context {F : Type} `{Scalar F}.

Variable ENC : Encoding.
Variable client : string -> result (list F).
Variable load_file : string -> result string.
Variable get_source : string -> result string.
Variable path_join : string -> string -> string.

#[local] Abbreviation ingest_state_ := (ingest_state (F := F)).

Lemma with_text_ingested (t : string) (m : Dict) :
  chunk_meta m -> ingested_record (with_text t m).
Proof.
  intros (s & i & Hi & ->). exists t, s, i. unfold with_text.
  split; [exact Hi|]. split; [|split].
  - rewrite lookup_union_r; [apply lookup_singleton_eq|].
    rewrite lookup_insert_ne by discriminate.
    apply lookup_singleton_ne. discriminate.
  - rewrite lookup_union_l'; [apply lookup_insert_eq|].
    rewrite lookup_insert_eq. eauto.
  - rewrite lookup_union_l'.
    + rewrite lookup_insert_ne by discriminate. apply lookup_singleton_eq.
    + rewrite lookup_insert_ne by discriminate.
      rewrite lookup_singleton_eq. eauto.
Qed.

Lemma zip_with_text_ingested (texts : list string) (metas : list Dict) :
  Forall chunk_meta metas ->
  Forall ingested_record (zip_with with_text texts metas).
Proof.
  intros Hmetas. revert texts.
  induction Hmetas as [|m metas Hm _ IH]; intros [|t texts]; cbn;
    constructor; [apply with_text_ingested, Hm|apply IH].
Qed.

Lemma grown_from_refl (st0 : store F) : grown_from st0 st0.
Proof.
  exists [], []. rewrite !app_nil_r. repeat split. constructor.
Qed.

Lemma index_batch_grows (st0 g g' : store F) (texts : list string)
    (metas : list Dict) (out : result unit) :
  grown_from st0 g ->
  length texts = length metas ->
  Forall chunk_meta metas ->
  index_batch client texts metas g = (out, g') ->
  grown_from st0 g'.
Proof.
  intros Hg Hlen Hmetas Hrun. unfold index_batch in Hrun.
  destruct (embed_each client texts) as [embs|e] eqn:Hembs_run;
    [|injection Hrun as <- <-; exact Hg].
  destruct (add_rows (g_index g) embs) as [ix|e] eqn:Hadd;
    [|injection Hrun as <- <-; exact Hg].
  injection Hrun as <- <-.
  apply add_rows_inv in Hadd as (Hxb & _ & _ & _).
  pose proof (embed_each_length _ _ _ Hembs_run) as Hembs.
  destruct Hg as (added & rows & Hmd0 & Hxb0 & Hrows & Hadded).
  exists (added ++ zip_with with_text texts metas), (rows ++ embs).
  cbn [g_index g_metadata]. rewrite Hmd0, Hxb, Hxb0, <- !app_assoc.
  split; [reflexivity|]. split; [reflexivity|]. split.
  - rewrite !length_app, length_zip_with. lia.
  - apply Forall_app. split; [exact Hadded|].
    apply zip_with_text_ingested, Hmetas.
Qed.

Lemma ingest_chunks_grows (st0 : store F) (full : string) (idx : Z)
    (chunks : list string) (s s' : ingest_state_) (out : result unit) :
  0 <= idx ->
  grown_from st0 (globals s) ->
  batch_ok s ->
  ingest_chunks client get_source full idx chunks s = (out, s') ->
  grown_from st0 (globals s') /\ (out = Ok () -> batch_ok s').
Proof.
  revert idx s. induction chunks as [|chunk chunks IH];
    intros idx s Hidx Hg [Hlen Hmetas] Hrun.
  - injection Hrun as <- <-. split; [exact Hg|]. intros _. split; assumption.
  - cbn [ingest_chunks] in Hrun.
    destruct (get_source full) as [source|e].
    2:{ injection Hrun as <- <-. split; [exact Hg|discriminate]. }
    assert (Hmetas' : Forall chunk_meta
              (batch_meta s
               ++ [{[ "source" := VStr source; "chunk_id" := VInt idx ]}])).
    { apply Forall_app. split; [exact Hmetas|].
      constructor; [|constructor]. exists source, idx. auto. }
    assert (Hlen' : length (batch_texts s ++ [chunk])
                    = length (batch_meta s
               ++ [{[ "source" := VStr source; "chunk_id" := VInt idx ]}])).
    { rewrite !length_app. cbn. lia. }
    destruct (BATCH_SIZE <=? len (batch_texts s ++ [chunk])).
    + destruct (index_batch client _ _ (globals s)) as [[[]|e] g] eqn:Hbatch.
      * apply (IH (idx + 1)) in Hrun; [exact Hrun|lia| |].
        -- cbn. eapply index_batch_grows; eassumption.
        -- split; [reflexivity|constructor].
      * injection Hrun as <- <-. cbn. split; [|discriminate].
        eapply index_batch_grows; eassumption.
    + apply (IH (idx + 1)) in Hrun; [exact Hrun|lia|exact Hg|].
      split; assumption.
Qed.

Lemma ingest_files_grows (st0 : store F) (fuel : nat) (dirpath : string)
    (files : list string) (s s' : ingest_state_) (out : result unit) :
  grown_from st0 (globals s) ->
  batch_ok s ->
  ingest_files ENC client load_file get_source path_join fuel dirpath files s
  = Some (out, s') ->
  grown_from st0 (globals s') /\ (out = Ok () -> batch_ok s').
Proof.
  revert s. induction files as [|fname files IH]; intros s Hg Hb Hrun.
  - injection Hrun as <- <-. auto.
  - cbn [ingest_files] in Hrun.
    destruct (negb (supported fname)); [eapply IH; eassumption|].
    destruct (load_file (path_join dirpath fname)) as [text|e].
    2:{ injection Hrun as <- <-. split; [exact Hg|discriminate]. }
    destruct (chunk_by_tokens ENC fuel text 8000 200) as [chunks|];
      [|discriminate].
    destruct (ingest_chunks client get_source (path_join dirpath fname) 0
                chunks s) as [[[]|e] s1] eqn:Hchunks.
    + apply ingest_chunks_grows with (st0 := st0) in Hchunks
        as [Hg1 Hb1]; [|lia|assumption..].
      eapply IH; [exact Hg1|apply Hb1; reflexivity|exact Hrun].
    + apply ingest_chunks_grows with (st0 := st0) in Hchunks
        as [Hg1 _]; [|lia|assumption..].
      injection Hrun as <- <-. split; [exact Hg1|discriminate].
Qed.

Lemma ingest_walk_grows (st0 : store F) (fuel : nat)
    (tree : list (string * list string)) (s s' : ingest_state_)
    (out : result unit) :
  grown_from st0 (globals s) ->
  batch_ok s ->
  ingest_walk ENC client load_file get_source path_join fuel tree s
  = Some (out, s') ->
  grown_from st0 (globals s') /\ (out = Ok () -> batch_ok s').
Proof.
  revert s. induction tree as [|[dirpath files] tree IH]; intros s Hg Hb Hrun.
  - injection Hrun as <- <-. auto.
  - cbn [ingest_walk] in Hrun.
    destruct (ingest_files ENC client load_file get_source path_join fuel
                dirpath files s) as [[[[]|e] s1]|] eqn:Hfiles;
      [| |discriminate].
    + apply ingest_files_grows with (st0 := st0) in Hfiles
        as [Hg1 Hb1]; [|assumption..].
      eapply IH; [exact Hg1|apply Hb1; reflexivity|exact Hrun].
    + apply ingest_files_grows with (st0 := st0) in Hfiles
        as [Hg1 _]; [|assumption..].
      injection Hrun as <- <-. split; [exact Hg1|discriminate].
Qed.

(** X26.  However [ingest_dir] ends, with the directory walked to its end
    or with an exception of a file, of the locator, of an embedding or of
    the library, the module-level index and metadata are what they were
    followed by as many new vectors as new records, and every new record is
    as the ingestion writes it: a string [text], a string [source] and an
    integer [chunk_id] that is not negative.  Stores whose counts agreed
    before still agree after. *)
Theorem ingest_dir_grows (fuel : nat) (tree : list (string * list string))
    (st st' : store F) (out : result unit) :
  ingest_dir ENC client load_file get_source path_join fuel tree st
  = Some (out, st') ->
  (exists (added : list Dict) (rows : list (list F)),
     g_metadata st' = g_metadata st ++ added
     /\ xb (g_index st') = xb (g_index st) ++ rows
     /\ length rows = length added
     /\ Forall ingested_record added
     /\ Forall complete added)
  /\ (ntotal (g_index st) = len (g_metadata st) ->
      ntotal (g_index st') = len (g_metadata st')).
Proof.
  intros Hrun.
  assert (Hg : grown_from st st').
  { unfold ingest_dir in Hrun.
    destruct (ingest_walk ENC client load_file get_source path_join fuel tree
                {| batch_texts := []; batch_meta := []; globals := st |})
      as [[[[]|e] s]|] eqn:Hwalk; [| |discriminate].
    - apply ingest_walk_grows with (st0 := st) in Hwalk as [Hg Hb];
        [|apply grown_from_refl|split; [reflexivity|constructor]].
      destruct (Hb eq_refl) as [Hlen Hmetas].
      destruct (batch_texts s) as [|t texts] eqn:Htexts.
      + injection Hrun as <- <-. exact Hg.
      + destruct (index_batch client (t :: texts) (batch_meta s) (globals s))
          as [out' g] eqn:Hbatch.
        injection Hrun as <- <-.
        eapply index_batch_grows; eassumption.
    - apply ingest_walk_grows with (st0 := st) in Hwalk as [Hg _];
        [|apply grown_from_refl|split; [reflexivity|constructor]].
      injection Hrun as <- <-. exact Hg. }
  destruct Hg as (added & rows & Hmd & Hxb & Hrows & Hadded). split.
  - exists added, rows. repeat split; try assumption.
    eapply Forall_impl; [exact Hadded|].
    intros m (t & s & i & _ & Ht & Hs & Hi). unfold complete.
    rewrite Ht, Hs, Hi. eauto.
  - unfold ntotal, len. rewrite Hmd, Hxb, !length_app. lia.
Qed.

End IngestDirFacts.

Lemma ingest_dir_grows_witness :
  exists st',
    ingest_dir char_encoding short_client one_letter_file path_as_source
      slash_join 2 [("res", ["a.txt"; "b.bin"; "c.MD"])] empty_store
    = Some (Ok (), st')
    /\ length (g_metadata st') = 2%nat
    /\ ntotal (g_index st') = len (g_metadata st').
Proof.
  destruct (ingest_dir char_encoding short_client one_letter_file
              path_as_source slash_join 2
              [("res", ["a.txt"; "b.bin"; "c.MD"])] empty_store)
    as [[out st']|] eqn:Hrun; [|vm_compute in Hrun; discriminate].
  assert (Hout : out = Ok () /\ length (g_metadata st') = 2%nat).
  { vm_compute in Hrun. injection Hrun as <- <-. split; reflexivity. }
  destruct Hout as [-> Hlen]. exists st'. split; [reflexivity|].
  split; [exact Hlen|].
  apply (proj2 (ingest_dir_grows char_encoding short_client one_letter_file
                  path_as_source slash_join _ _ _ _ _ Hrun)).
  reflexivity.
Defined.
